(** * The two-tier read-through cache of [src/routes/meta/tmdb.ts]

    A shallow embedding of [getCacheKey] and [cacheWrapper] and of the
    objects they act on: JSON-shaped JavaScript values, the in-process
    [LRUCache] bound to [fastify.memoryCache], the optional Redis handle
    [fastify.redis], the reply's headers and the caller-supplied loader. *)

From Stdlib Require Import ZArith String Ascii List Bool Lia DecimalString.
From stdpp Require Import gmap strings list fin_maps.

Set Warnings "-register-all".

Open Scope string_scope.
Open Scope Z_scope.

(** ** JavaScript values *)

(** The values that travel through the cache: route parameters, upstream
    payloads and whatever [JSON.parse] builds.  Numbers are the integral
    ones; an object lists its own properties in creation order. *)
Inductive jsval : Type :=
| JUndefined
| JNull
| JBool (b : bool)
| JNum (n : Z)
| JStr (s : string)
| JArr (elems : list jsval)
| JObj (props : list (string * jsval)).

Definition nonempty (s : string) : bool := negb (String.eqb s EmptyString).

(** [ToBoolean]: what [if (x)] tests. *)
Definition truthy (v : jsval) : bool :=
  match v with
  | JUndefined | JNull => false
  | JBool b => b
  | JNum n => negb (n =? 0)
  | JStr s => nonempty s
  | JArr _ | JObj _ => true
  end.

(** Truthiness of a [string | null], the result type of [redis.get]. *)
Definition truthy_reply (r : option string) : bool :=
  match r with
  | Some s => nonempty s
  | None => false
  end.

Module Obj.

(** An object as the list of its own properties, oldest first. *)
Definition t : Type := list (string * jsval).

Fixpoint lookup (k : string) (o : t) : option jsval :=
  match o with
  | [] => None
  | (k', v) :: o' => if String.eqb k k' then Some v else lookup k o'
  end.

(** [o[k] = v]: an existing property keeps its place, a new one goes last. *)
Fixpoint set (k : string) (v : jsval) (o : t) : t :=
  match o with
  | [] => [(k, v)]
  | (k', v') :: o' =>
      if String.eqb k k' then (k, v) :: o' else (k', v') :: set k v o'
  end.

(** The object literal [{ k1: v1, ..., kn: vn }]. *)
Definition literal (kvs : list (string * jsval)) : t :=
  fold_left (fun o kv => set (fst kv) (snd kv) o) kvs [].

Definition keys (o : t) : list string := List.map fst o.

(** Two parameter bags hold the same keys mapped to the same values. *)
Definition same_bag (p1 p2 : t) : Prop :=
  forall k, lookup k p1 = lookup k p2.

End Obj.

(** ** [JSON.stringify] *)

Module JSON.

Definition dquote : string := String (ascii_of_nat 34) EmptyString.
Definition backslash : string := String (ascii_of_nat 92) EmptyString.

Definition hex_digit (n : nat) : ascii :=
  ascii_of_nat (if Nat.ltb n 10 then 48 + n else 87 + n)%nat.

(** One code unit inside a quoted string (QuoteJSONString). *)
Definition escape (c : ascii) : string :=
  let n := nat_of_ascii c in
  if Nat.eqb n 8 then backslash +:+ "b"
  else if Nat.eqb n 9 then backslash +:+ "t"
  else if Nat.eqb n 10 then backslash +:+ "n"
  else if Nat.eqb n 12 then backslash +:+ "f"
  else if Nat.eqb n 13 then backslash +:+ "r"
  else if Nat.eqb n 34 then backslash +:+ dquote
  else if Nat.eqb n 92 then backslash +:+ backslash
  else if Nat.ltb n 32 then
    backslash +:+ "u00" +:+
    String (hex_digit (Nat.div n 16)) (String (hex_digit (Nat.modulo n 16)) EmptyString)
  else String c EmptyString.

Fixpoint escape_all (s : string) : string :=
  match s with
  | EmptyString => EmptyString
  | String c s' => escape c +:+ escape_all s'
  end.

Definition quote (s : string) : string := dquote +:+ escape_all s +:+ dquote.

(** [Number::toString] on an integral number, in plain decimal digits:
    what JavaScript prints for integers of magnitude below [1e21]. *)
Definition number_to_string (n : Z) : string :=
  NilZero.string_of_int (Z.to_int n).

Definition is_digit (c : ascii) : bool :=
  let n := nat_of_ascii c in Nat.leb 48 n && Nat.leb n 57.

Fixpoint digits_value (s : string) (acc : N) : option N :=
  match s with
  | EmptyString => Some acc
  | String c s' =>
      if is_digit c
      then digits_value s' (10 * acc + N.of_nat (nat_of_ascii c - 48))%N
      else None
  end.

(** A property name that is an array index: the canonical decimal form
    of an integer below [2^32 - 1].  Such names are enumerated first. *)
Definition array_index (k : string) : option N :=
  match k with
  | EmptyString => None
  | String c rest =>
      if Nat.eqb (nat_of_ascii c) 48 && negb (String.eqb rest EmptyString) then None
      else if Nat.ltb 10 (String.length k) then None
      else match digits_value k 0%N with
           | Some n => if (n <? 4294967295)%N then Some n else None
           | None => None
           end
  end.

Section Enumeration.
Context {A : Type}.

Fixpoint insert_index (n : N) (x : string * A) (l : list (N * (string * A)))
  : list (N * (string * A)) :=
  match l with
  | [] => [(n, x)]
  | (m, y) :: l' =>
      if (n <? m)%N then (n, x) :: (m, y) :: l' else (m, y) :: insert_index n x l'
  end.

Fixpoint indexed (o : list (string * A)) : list (N * (string * A)) :=
  match o with
  | [] => []
  | (k, v) :: o' =>
      match array_index k with
      | Some n => insert_index n (k, v) (indexed o')
      | None => indexed o'
      end
  end.

Definition named (o : list (string * A)) : list (string * A) :=
  List.filter (fun kv => match array_index (fst kv) with Some _ => false | None => true end) o.

(** OrdinaryOwnPropertyKeys: array indices in ascending order, then the
    other names in creation order. *)
Definition own_properties (o : list (string * A)) : list (string * A) :=
  List.map snd (indexed o) ++ named o.
End Enumeration.

Fixpoint join (sep : string) (l : list string) : string :=
  match l with
  | [] => EmptyString
  | [x] => x
  | x :: l' => x +:+ sep +:+ join sep l'
  end.

(** A property whose value serializes to [undefined] is left out. *)
Definition member (kv : string * option string) : option string :=
  match snd kv with
  | Some s => Some (quote (fst kv) +:+ ":" +:+ s)
  | None => None
  end.

Definition members (rendered : list (string * option string)) : list string :=
  omap member (own_properties rendered).

(** [JSON.stringify(v)]: [None] stands for the result [undefined]. *)
Fixpoint stringify (v : jsval) : option string :=
  match v with
  | JUndefined => None
  | JNull => Some "null"
  | JBool b => Some (if b then "true" else "false")
  | JNum n => Some (number_to_string n)
  | JStr s => Some (quote s)
  | JArr elems =>
      Some ("[" +:+
            join "," (List.map (fun x => match stringify x with
                                         | Some s => s
                                         | None => "null"
                                         end) elems)
            +:+ "]")
  | JObj props =>
      Some ("{" +:+
            join "," (members (List.map (fun kv => (fst kv, stringify (snd kv))) props))
            +:+ "}")
  end.

(** ** [JSON.parse] on the texts of the value model *)

Definition is_ws (c : ascii) : bool :=
  let n := nat_of_ascii c in
  Nat.eqb n 32 || Nat.eqb n 9 || Nat.eqb n 10 || Nat.eqb n 13.

Fixpoint skip_ws (s : string) : string :=
  match s with
  | String c s' => if is_ws c then skip_ws s' else s
  | EmptyString => s
  end.

(** [strip p s]: what follows the prefix [p] of [s]. *)
Fixpoint strip (p s : string) : option string :=
  match p, s with
  | EmptyString, _ => Some s
  | String a p', String b s' => if Ascii.eqb a b then strip p' s' else None
  | String _ _, EmptyString => None
  end.

Fixpoint take_digits (s : string) : string * string :=
  match s with
  | String c s' =>
      if is_digit c then let (d, r) := take_digits s' in (String c d, r)
      else (EmptyString, s)
  | EmptyString => (EmptyString, s)
  end.

Definition starts_fraction (s : string) : bool :=
  match s with
  | String c _ =>
      let n := nat_of_ascii c in Nat.eqb n 46 || Nat.eqb n 101 || Nat.eqb n 69
  | EmptyString => false
  end.

(** An unsigned integer literal: no leading zero, and no fraction or
    exponent part (those denote numbers outside the value model). *)
Definition unsigned (s : string) : option (Z * string) :=
  let (d, r) := take_digits s in
  match d with
  | EmptyString => None
  | String c d' =>
      if Nat.eqb (nat_of_ascii c) 48 && negb (String.eqb d' EmptyString) then None
      else if starts_fraction r then None
      else match digits_value d 0%N with
           | Some n => Some (Z.of_N n, r)
           | None => None
           end
  end.

Definition hex_value (c : ascii) : option nat :=
  let n := nat_of_ascii c in
  if Nat.leb 48 n && Nat.leb n 57 then Some (n - 48)%nat
  else if Nat.leb 97 n && Nat.leb n 102 then Some (n - 87)%nat
  else if Nat.leb 65 n && Nat.leb n 70 then Some (n - 55)%nat
  else None.

(** The four hex digits of a [\u] escape, for code units below 256. *)
Definition unicode_escape (s : string) : option (ascii * string) :=
  match s with
  | String a (String b (String c (String d r))) =>
      match hex_value a, hex_value b, hex_value c, hex_value d with
      | Some 0%nat, Some 0%nat, Some x, Some y => Some (ascii_of_nat (16 * x + y), r)
      | _, _, _, _ => None
      end
  | _ => None
  end.

Definition simple_escape (c : ascii) : option ascii :=
  let n := nat_of_ascii c in
  if Nat.eqb n 34 || Nat.eqb n 92 || Nat.eqb n 47 then Some c
  else if Nat.eqb n 98 then Some (ascii_of_nat 8)
  else if Nat.eqb n 102 then Some (ascii_of_nat 12)
  else if Nat.eqb n 110 then Some (ascii_of_nat 10)
  else if Nat.eqb n 114 then Some (ascii_of_nat 13)
  else if Nat.eqb n 116 then Some (ascii_of_nat 9)
  else None.

(** The body of a string literal, after its opening quote. *)
Fixpoint string_body (n : nat) (s : string) : option (string * string) :=
  match n with
  | O => None
  | S n' =>
      match s with
      | EmptyString => None
      | String c r =>
          let k := nat_of_ascii c in
          if Nat.eqb k 34 then Some (EmptyString, r)
          else if Nat.ltb k 32 then None
          else if Nat.eqb k 92 then
            match r with
            | EmptyString => None
            | String e r' =>
                if Nat.eqb (nat_of_ascii e) 117 then
                  match unicode_escape r' with
                  | Some (u, r'') =>
                      match string_body n' r'' with
                      | Some (body, rest) => Some (String u body, rest)
                      | None => None
                      end
                  | None => None
                  end
                else
                  match simple_escape e with
                  | Some u =>
                      match string_body n' r' with
                      | Some (body, rest) => Some (String u body, rest)
                      | None => None
                      end
                  | None => None
                  end
            end
          else
            match string_body n' r with
            | Some (body, rest) => Some (String c body, rest)
            | None => None
            end
      end
  end.

Definition string_literal (s : string) : option (string * string) :=
  match s with
  | String c r =>
      if Nat.eqb (nat_of_ascii c) 34 then string_body (String.length r) r else None
  | EmptyString => None
  end.

Section Composite.
Variable value : string -> option (jsval * string).

(** The elements of an array after the first has been announced. *)
Fixpoint elements (n : nat) (s : string) (acc : list jsval) : option (jsval * string) :=
  match n with
  | O => None
  | S n' =>
      match value s with
      | Some (v, r) =>
          match skip_ws r with
          | String c r' =>
              if Nat.eqb (nat_of_ascii c) 44 then elements n' r' (acc ++ [v])
              else if Nat.eqb (nat_of_ascii c) 93 then Some (JArr (acc ++ [v]), r')
              else None
          | EmptyString => None
          end
      | None => None
      end
  end.

(** The members of an object; a repeated name overwrites in place. *)
Fixpoint properties (n : nat) (s : string) (acc : Obj.t) : option (jsval * string) :=
  match n with
  | O => None
  | S n' =>
      match string_literal (skip_ws s) with
      | Some (k, r) =>
          match skip_ws r with
          | String c r' =>
              if Nat.eqb (nat_of_ascii c) 58 then
                match value r' with
                | Some (v, r'') =>
                    match skip_ws r'' with
                    | String d r3 =>
                        if Nat.eqb (nat_of_ascii d) 44 then properties n' r3 (Obj.set k v acc)
                        else if Nat.eqb (nat_of_ascii d) 125 then Some (JObj (Obj.set k v acc), r3)
                        else None
                    | EmptyString => None
                    end
                | None => None
                end
              else None
          | EmptyString => None
          end
      | None => None
      end
  end.
End Composite.

Fixpoint value (fuel : nat) (s : string) : option (jsval * string) :=
  match fuel with
  | O => None
  | S fuel' =>
      match skip_ws s with
      | EmptyString => None
      | String c r as t =>
          let k := nat_of_ascii c in
          if Nat.eqb k 110 then option_map (fun r' => (JNull, r')) (strip "null" t)
          else if Nat.eqb k 116 then option_map (fun r' => (JBool true, r')) (strip "true" t)
          else if Nat.eqb k 102 then option_map (fun r' => (JBool false, r')) (strip "false" t)
          else if Nat.eqb k 34 then
            option_map (fun p => (JStr (fst p), snd p)) (string_literal t)
          else if Nat.eqb k 45 then
            option_map (fun p => (JNum (- fst p), snd p)) (unsigned r)
          else if is_digit c then
            option_map (fun p => (JNum (fst p), snd p)) (unsigned t)
          else if Nat.eqb k 91 then
            match skip_ws r with
            | String d r' =>
                if Nat.eqb (nat_of_ascii d) 93 then Some (JArr [], r')
                else elements (value fuel') (String.length r) r []
            | EmptyString => None
            end
          else if Nat.eqb k 123 then
            match skip_ws r with
            | String d r' =>
                if Nat.eqb (nat_of_ascii d) 125 then Some (JObj [], r')
                else properties (value fuel') (String.length r) r []
            | EmptyString => None
            end
          else None
      end
  end.

(** [JSON.parse(text)] on the texts of the value model.  [None] when the
    text is not one JSON value of the model: where JavaScript throws a
    [SyntaxError], and also on a number with a fraction or an exponent,
    which JavaScript parses to a number the model does not have. *)
Definition parse (text : string) : option jsval :=
  match value (S (String.length text)) text with
  | Some (v, r) =>
      match skip_ws r with
      | EmptyString => Some v
      | String _ _ => None
      end
  | None => None
  end.

End JSON.

(** A template literal's [${e}] when [e] is a string or [undefined]. *)
Definition interpolate (e : option string) : string :=
  match e with
  | Some s => s
  | None => "undefined"
  end.

(** [getCacheKey(route, params)] *)
Definition getCacheKey (route : string) (params : Obj.t) : string :=
  "tmdb:" +:+ route +:+ ":" +:+ interpolate (JSON.stringify (JObj params)).


(** ** The local tier: [LRUCache] *)

Module LRUCache.

(** Modelled from the spec: the class [LRUCache] is imported from the
    package lru-cache and is not under src/.  Section 4.2 gives its
    contract: a fixed [max] and [ttl] supplied at construction, entries
    kept in recency order, expiry checked lazily on [get].  An entry
    records the clock reading of the [set] that wrote it. *)
Record entry : Type := Entry { key : string; value : jsval; start : Z }.

(** Modelled from the spec: the state of an [LRUCache] (package
    lru-cache, not under src/): the two options fixed at construction and
    the entries, most recently used first. *)
Record t : Type := Cache { max : nat; ttl : Z; entries : list entry }.

(** Modelled from the spec: [new LRUCache({ max, ttl })] (package
    lru-cache, not under src/): an empty cache with the two options of
    section 4.2. *)
Definition new (max : nat) (ttl : Z) : t := Cache max ttl [].

Definition has_key (k : string) (e : entry) : bool := String.eqb k (key e).

Definition find (k : string) (es : list entry) : option entry :=
  List.find (has_key k) es.

Definition remove (k : string) (es : list entry) : list entry :=
  List.filter (fun e => negb (has_key k e)) es.

Definition with_entries (c : t) (es : list entry) : t :=
  Cache (max c) (ttl c) es.

(** Modelled from the spec: the expiry test of lru-cache (not under
    src/).  Per section 4.2 an entry is expired once its TTL has elapsed
    since it was written, that is, once more than [ttl] has passed;
    [ttl = 0] switches expiry off. *)
Definition isStale (c : t) (e : entry) (now : Z) : bool :=
  negb (ttl c =? 0) && (ttl c <? now - start e).

(** Modelled from the spec: the removal of an entry (lru-cache, not under
    src/), as [get] performs it on an expired entry per section 4.2. *)
Definition delete (c : t) (k : string) : t :=
  with_entries c (remove k (entries c)).

(** Modelled from the spec: [get] of lru-cache (not under src/).  Per
    section 4.2 it returns the stored value if present and not expired,
    refreshing the entry's recency; an expired entry is treated as absent
    and lazily removed.  Absence is the value [undefined]. *)
Definition get (c : t) (k : string) (now : Z) : jsval * t :=
  match find k (entries c) with
  | None => (JUndefined, c)
  | Some e =>
      if isStale c e now then (JUndefined, delete c k)
      else (value e, with_entries c (e :: remove k (entries c)))
  end.

(** Modelled from the spec: [set] of lru-cache (not under src/).  Per
    section 4.2 it inserts or replaces, and a new key arriving at capacity
    first evicts the least recently used entry.  The package documents
    [set(k, undefined)] as [delete(k)]: [undefined] is never stored. *)
Definition set (c : t) (k : string) (v : jsval) (now : Z) : t :=
  match v with
  | JUndefined => delete c k
  | _ =>
      match find k (entries c) with
      | Some _ => with_entries c (Entry k v now :: remove k (entries c))
      | None =>
          let size := length (entries c) in
          let kept := if Nat.ltb 0 size && Nat.eqb size (max c)
                      then removelast (entries c) else entries c in
          with_entries c (Entry k v now :: kept)
      end
  end.

(** A lookup that leaves the cache as it is: the value [get] would return. *)
Definition peek (c : t) (k : string) (now : Z) : jsval := fst (get c k now).

(** The cache has a live entry for [k] holding [v]. *)
Definition holds (c : t) (k : string) (v : jsval) (now : Z) : Prop :=
  exists e, find k (entries c) = Some e /\ value e = v /\ isStale c e now = false.

End LRUCache.

(** ** The shared tier: Redis *)

Module Redis.

(** Modelled from the spec: the Redis server behind the ioredis client is
    not under src/.  Section 6 gives the protocol: [GET key] and
    [SET key value EX ttlSeconds] over serialized text.  A stored item
    carries its bytes and, when it was written with [EX], the clock
    reading at which it expires. *)
Record item : Type := Item { bytes : string; expireAt : option Z }.

(** Modelled from the spec: the server's own expiry (section 3; server
    not under src/): an item is gone once its expiry instant has passed. *)
Definition expired (now : Z) (it : item) : bool :=
  match expireAt it with
  | Some at_ => at_ <? now
  | None => false
  end.

(** Modelled from the spec: [GET key] (section 6; server not under
    src/): the bytes, or nothing when the key is absent or has expired. *)
Definition GET (db : gmap string item) (k : string) (now : Z) : option string :=
  match db !! k with
  | Some it => if expired now it then None else Some (bytes it)
  | None => None
  end.

(** Modelled from the spec: [SET key value EX seconds] (section 6;
    server not under src/); the clock counts milliseconds. *)
Definition SET_EX (db : gmap string item) (k v : string) (seconds : Z) (now : Z)
  : gmap string item :=
  <[k := Item v (Some (now + 1000 * seconds))]> db.

(** ioredis writes an [undefined] command argument as the empty string. *)
Definition toArg (a : option string) : string :=
  match a with
  | Some s => s
  | None => EmptyString
  end.

End Redis.

(** ** The world a request runs in *)

(** What a rejected promise carries. *)
Inductive exn : Type :=
| RedisError (msg : string)
| SyntaxError (input : string)
| Rejection (reason : jsval).

Inductive outcome (A : Type) : Type :=
| Ok (a : A)
| Throw (e : exn).
Arguments Ok {A} a.
Arguments Throw {A} e.

(** [FastifyReply]: the headers set so far, the status and what was sent. *)
Record Reply : Type := MkReply {
  headers : gmap string string;
  statusCode : Z;
  sent : option jsval
}.

Definition fresh_reply : Reply := MkReply ∅ 200 None.

(** The state [cacheWrapper] reads and writes: the clock (milliseconds),
    [fastify.memoryCache], [fastify.redis] (absent when [null]) with the
    server's keyspace, the reply, and how often loaders have run. *)
Record State : Type := MkState {
  now : Z;
  memoryCache : LRUCache.t;
  redis : option (gmap string Redis.item);
  reply : Reply;
  fetched : nat
}.

(** A loader: the outcome of its n-th invocation (counting from 0). *)
Definition Loader : Type := nat -> outcome jsval.

(** What the environment decides during one call: how long each awaited
    operation takes, and whether the Redis commands are rejected. *)
Record Env : Type := MkEnv {
  redis_get_lag : N;
  redis_get_fault : option exn;
  fetch_lag : N;
  redis_set_fault : option exn
}.

(** Computations over [State] that may throw. *)
Definition M (A : Type) : Type := State -> outcome A * State.

Definition ret {A} (a : A) : M A := fun s => (Ok a, s).

Definition throw {A} (e : exn) : M A := fun s => (Throw e, s).

Definition bind {A B} (m : M A) (k : A -> M B) : M B :=
  fun s =>
    match m s with
    | (Ok a, s') => k a s'
    | (Throw e, s') => (Throw e, s')
    end.

Notation "x <- m ;; k" := (bind m (fun x => k))
  (at level 90, m at level 89, right associativity).
Notation "m ;;; k" := (bind m (fun _ => k))
  (at level 90, right associativity).

(** [try { body } catch (error) { handler(error) }] *)
Definition try_catch {A} (body : M A) (handler : exn -> M A) : M A :=
  fun s =>
    match body s with
    | (Ok a, s') => (Ok a, s')
    | (Throw e, s') => handler e s'
    end.

Definition elapse (d : N) : M unit :=
  fun s => (Ok tt, MkState (now s + Z.of_N d) (memoryCache s) (redis s) (reply s) (fetched s)).

(** [fastify.memoryCache.get(k)] *)
Definition memoryCache_get (k : string) : M jsval :=
  fun s =>
    let (v, c) := LRUCache.get (memoryCache s) k (now s) in
    (Ok v, MkState (now s) c (redis s) (reply s) (fetched s)).

(** [fastify.memoryCache.set(k, v)] *)
Definition memoryCache_set (k : string) (v : jsval) : M unit :=
  fun s =>
    (Ok tt, MkState (now s) (LRUCache.set (memoryCache s) k v (now s))
                    (redis s) (reply s) (fetched s)).

(** [fastify.redis] *)
Definition fastify_redis : M (option (gmap string Redis.item)) :=
  fun s => (Ok (redis s), s).

(** [await fastify.redis.get(k)]: the round trip takes its time, then the
    promise is rejected or resolves to the server's answer. *)
Definition redis_get (env : Env) (k : string) : M (option string) :=
  elapse (redis_get_lag env) ;;;
  fun s =>
    match redis_get_fault env, redis s with
    | Some e, _ => (Throw e, s)
    | None, Some db => (Ok (Redis.GET db k (now s)), s)
    | None, None => (Ok None, s)
    end.

(** [fastify.redis.set(k, v, 'EX', seconds)], not awaited: when the
    command is rejected nothing is stored and nobody sees the rejection. *)
Definition redis_set (env : Env) (k : string) (v : option string) (seconds : Z) : M unit :=
  fun s =>
    match redis_set_fault env, redis s with
    | None, Some db =>
        (Ok tt, MkState (now s) (memoryCache s)
                        (Some (Redis.SET_EX db k (Redis.toArg v) seconds (now s)))
                        (reply s) (fetched s))
    | _, _ => (Ok tt, s)
    end.

Definition with_header (name value : string) (r : Reply) : Reply :=
  MkReply (<[name := value]> (headers r)) (statusCode r) (sent r).

(** [reply.header(name, value)] *)
Definition reply_header (name value : string) : M unit :=
  fun s =>
    (Ok tt, MkState (now s) (memoryCache s) (redis s)
                    (with_header name value (reply s)) (fetched s)).

(** [reply.status(code)] *)
Definition reply_status (code : Z) : M unit :=
  fun s =>
    let r := reply s in
    (Ok tt, MkState (now s) (memoryCache s) (redis s)
                    (MkReply (headers r) code (sent r)) (fetched s)).

(** [reply.send(payload)] *)
Definition reply_send (payload : jsval) : M unit :=
  fun s =>
    let r := reply s in
    (Ok tt, MkState (now s) (memoryCache s) (redis s)
                    (MkReply (headers r) (statusCode r) (Some payload)) (fetched s)).

(** [await fetchData()] *)
Definition await_fetch (env : Env) (fetchData : Loader) : M jsval :=
  fun s =>
    (fetchData (fetched s),
     MkState (now s + Z.of_N (fetch_lag env)) (memoryCache s) (redis s) (reply s)
             (S (fetched s))).

(** ** The orchestrator *)

(** [const CACHE_TTL = 1800], in seconds (thirty minutes; the comment next
    to it in the source says ten). *)
Definition CACHE_TTL : Z := 1800.

(** [new LRUCache<string, any>({ max: 1000, ttl: CACHE_TTL * 1000 })] *)
Definition memoryCache_init : LRUCache.t := LRUCache.new 1000 (CACHE_TTL * 1000).

Section Orchestrator.

(** [JSON.parse]: [None] when it throws a [SyntaxError]. *)
Variable JSON_parse : string -> option jsval.

(** [JSON.parse(text)] as a computation. *)
Definition parse_text (text : string) : M jsval :=
  match JSON_parse text with
  | Some v => ret v
  | None => throw (SyntaxError text)
  end.

(** The Redis branch of [cacheWrapper]: [Some v] when it returns [v] to
    the caller, [None] when control falls through to the loader. *)
Definition check_redis (env : Env) (cacheKey : string) : M (option jsval) :=
  r <- fastify_redis ;;
  match r with
  | Some _ =>
      cachedData <- redis_get env cacheKey ;;
      match cachedData with
      | Some text =>
          if nonempty text then
            parsedData <- parse_text text ;;
            memoryCache_set cacheKey parsedData ;;;
            reply_header "X-Cache" "HIT-REDIS" ;;;
            ret (Some parsedData)
          else ret None
      | None => ret None
      end
  | None => ret None
  end.

(** [cacheWrapper(fastify, cacheKey, fetchData, reply)] *)
Definition cacheWrapper (env : Env) (cacheKey : string) (fetchData : Loader) : M jsval :=
  memoryCachedData <- memoryCache_get cacheKey ;;
  if truthy memoryCachedData then
    reply_header "X-Cache" "HIT-MEMORY" ;;;
    ret memoryCachedData
  else
    hit <- check_redis env cacheKey ;;
    match hit with
    | Some parsedData => ret parsedData
    | None =>
        reply_header "X-Cache" "MISS" ;;;
        data <- await_fetch env fetchData ;;
        memoryCache_set cacheKey data ;;;
        r <- fastify_redis ;;
        match r with
        | Some _ => redis_set env cacheKey (JSON.stringify data) CACHE_TTL
        | None => ret tt
        end ;;;
        ret data
    end.

Definition error_message : jsval :=
  JObj [("message", JStr "An unexpected error occurred. Please try again later.")].

(** [handleErrors(reply, error)] *)
Definition handleErrors (error : exn) : M unit :=
  reply_status 500 ;;;
  reply_send error_message.

(** [fetchAndCache(fastify, cacheKey, fetchData, reply)] *)
Definition fetchAndCache (env : Env) (cacheKey : string) (fetchData : Loader) : M unit :=
  try_catch
    (res <- cacheWrapper env cacheKey fetchData ;;
     reply_send res)
    handleErrors.

End Orchestrator.

(** The label a call left in the reply's [X-Cache] header. *)
Definition x_cache (s : State) : option string := headers (reply s) !! "X-Cache".

(** ** Sample requests *)

(** The parameter bag of [/naruto?page=1] as the search route builds it,
    and the same bag with its properties created in the other order. *)
Definition search_params : Obj.t := [("query", JStr "naruto"); ("page", JNum 1)].
Definition search_params_swapped : Obj.t := [("page", JNum 1); ("query", JStr "naruto")].

(** A bag with the array-index names [10] and [2] beside [page], and the
    same bag with its properties created in another order. *)
Definition indexed_params : Obj.t :=
  [("10", JStr "ten"); ("2", JStr "two"); ("page", JNum 1)].
Definition indexed_params_reordered : Obj.t :=
  [("page", JNum 1); ("2", JStr "two"); ("10", JStr "ten")].

(** ** Enumeration order *)

(** The index-tagged properties come in strictly ascending index order. *)
Fixpoint ascending {X : Type} (l : list (N * X)) : Prop :=
  match l with
  | [] => True
  | a :: l' => Forall (fun y => (fst a < fst y)%N) l' /\ ascending l'
  end.

(** ** Sequences of local-tier operations *)

Inductive cache_op : Type :=
| CGet (k : string)
| CSet (k : string) (v : jsval).

(** Runs timed operations in order; returns what the [get]s returned. *)
Fixpoint cache_run (c : LRUCache.t) (ops : list (cache_op * Z)) : list jsval * LRUCache.t :=
  match ops with
  | [] => ([], c)
  | (CGet k, now) :: ops' =>
      let (v, c') := LRUCache.get c k now in
      let (vs, c'') := cache_run c' ops' in
      (v :: vs, c'')
  | (CSet k v, now) :: ops' => cache_run (LRUCache.set c k v now) ops'
  end.

Definition overwrites (k : string) (o : cache_op * Z) : bool :=
  match fst o with
  | CSet k' _ => String.eqb k k'
  | CGet _ => false
  end.

(** Every entry of the cache under [k] was written no later than [t0]. *)
Definition written_by (k : string) (t0 : Z) (c : LRUCache.t) : Prop :=
  forall e, In e (LRUCache.entries c) -> LRUCache.key e = k -> LRUCache.start e <= t0.

(** The clock readings [times] all fall within one TTL of each other (or
    expiry is switched off), so that nothing expires between them. *)
Definition in_window (ttl0 lo : Z) (times : list Z) : Prop :=
  ttl0 = 0 \/ Forall (fun t => lo <= t <= lo + ttl0) times.

(** ** Between requests *)

(** The same world [d] milliseconds later. *)
Definition later (d : N) (s : State) : State :=
  MkState (now s + Z.of_N d) (memoryCache s) (redis s) (reply s) (fetched s).

(** The next request arrives with a reply object of its own. *)
Definition next_request (s : State) : State :=
  MkState (now s) (memoryCache s) (redis s) fresh_reply (fetched s).

(** What the local tier answers to the lookup [cacheWrapper] starts with. *)
Definition local_lookup (s : State) (k : string) : jsval * LRUCache.t :=
  LRUCache.get (memoryCache s) k (now s).

(** What the shared tier answers in a call under [env], if it answers. *)
Definition shared_lookup (env : Env) (db : gmap string Redis.item) (s : State) (k : string)
  : option string :=
  Redis.GET db k (now s + Z.of_N (redis_get_lag env)).

(** The keyspace after the un-awaited [SET] of a MISS. *)
Definition shared_store (env : Env) (db : gmap string Redis.item) (k : string)
  (data : jsval) (at_ : Z) : gmap string Redis.item :=
  match redis_set_fault env with
  | None => Redis.SET_EX db k (Redis.toArg (JSON.stringify data)) CACHE_TTL at_
  | Some _ => db
  end.

(** ** Sample worlds *)

Definition sample_key : string := getCacheKey "search" search_params.

(** A process that has just started, without and with a Redis handle. *)
Definition cold : State := MkState 0 memoryCache_init None fresh_reply 0.
Definition cold_shared : State := MkState 0 memoryCache_init (Some ∅) fresh_reply 0.

(** An environment in which nothing takes time and nothing fails. *)
Definition prompt : Env := MkEnv 0 None 0 None.

(** Redis cannot be reached: reads and writes are rejected. *)
Definition unreachable : Env :=
  MkEnv 5 (Some (RedisError "connect ECONNREFUSED")) 20 (Some (RedisError "connect ECONNREFUSED")).

(** Reads are answered, the write after a MISS is rejected. *)
Definition read_only : Env := MkEnv 5 None 20 (Some (RedisError "READONLY")).

(** A loader whose n-th invocation returns the number [n]. *)
Definition counting : Loader := fun n => Ok (JNum (Z.of_nat n)).

(** A loader returning a page of results that differs at every invocation. *)
Definition paging : Loader :=
  fun n => Ok (JObj [("currentPage", JNum (1 + Z.of_nat n)); ("results", JArr [])]).

(** A loader whose upstream is down. *)
Definition failing : Loader := fun _ => Throw (Rejection (JStr "upstream unavailable")).

(** The keyspace in which some other writer left [text] under the sample
    key, without expiry. *)
Definition keyspace (text : string) : gmap string Redis.item :=
  {[ sample_key := Redis.Item text None ]}.

(** A process that has just started in front of that keyspace. *)
Definition seeded (text : string) : State :=
  MkState 0 memoryCache_init (Some (keyspace text)) fresh_reply 0.

(** A process whose local tier holds [v] under the sample key, written at
    the instant the state describes. *)
Definition warmed (v : jsval) (shared : option (gmap string Redis.item)) : State :=
  MkState 1000 (LRUCache.set memoryCache_init sample_key v 1000) shared fresh_reply 0.

(** ** Well-formed local tiers *)

(** What every cache built by [new] with a positive [max] and touched only
    through [get] and [set] satisfies: one entry per key, and no more
    entries than [max]. *)
Definition cache_ok (c : LRUCache.t) : Prop :=
  NoDup (List.map LRUCache.key (LRUCache.entries c)) /\
  (0 < LRUCache.max c)%nat /\
  (length (LRUCache.entries c) <= LRUCache.max c)%nat.

(** One request after another, each with a reply of its own and after
    some time has passed: the state after the last of them. *)
Fixpoint serve (JSON_parse : string -> option jsval)
  (calls : list (N * Env * string * Loader)) (s : State) : State :=
  match calls with
  | [] => s
  | (d, env, k, f) :: calls' =>
      serve JSON_parse calls'
        (snd (cacheWrapper JSON_parse env k f (later d (next_request s))))
  end.

(** The three labels [cacheWrapper] writes into [X-Cache]. *)
Definition cache_labels : list string := ["HIT-MEMORY"; "HIT-REDIS"; "MISS"].

(** The first page the loader [paging] returns. *)
Definition first_page : jsval := JObj [("currentPage", JNum 1); ("results", JArr [])].

(** A second process, just started, still within [CACHE_TTL] of the
    start of the first one, in front of the keyspace [shared]. *)
Definition other_process (shared : option (gmap string Redis.item)) : State :=
  MkState 1800000 memoryCache_init shared fresh_reply 0.

(** ** The routes of [tmdb.ts] *)

(** [String.prototype.toLowerCase] on one code unit below 256: the
    letters A to Z and the accented capitals of Latin-1 move up by 32. *)
Definition lower_unit (c : ascii) : ascii :=
  let n := nat_of_ascii c in
  if (Nat.leb 65 n && Nat.leb n 90)
     || (Nat.leb 192 n && Nat.leb n 222 && negb (Nat.eqb n 215))
  then ascii_of_nat (n + 32) else c.

(** [String.prototype.toLowerCase] on a string of code units below 256. *)
Fixpoint toLowerCase (s : string) : string :=
  match s with
  | EmptyString => EmptyString
  | String c s' => String (lower_unit c) (toLowerCase s')
  end.

(** The rejection raised by calling something that is not a function. *)
Definition TypeError (message : string) : exn :=
  Rejection (JObj [("name", JStr "TypeError"); ("message", JStr message)]).

(** A provider of [PROVIDERS_LIST.MOVIES], as far as this file looks at
    it: its [name]. *)
Record Provider : Type := MkProvider { name : string }.

(** What [new META.TMDB(apiKey, provider)] is built from. *)
Record TMDB : Type := MkTMDB { apiKey : string; provider : option Provider }.

(** [request.params] and [request.query]. *)
Record Request : Type := MkRequest { params : Obj.t; query : Obj.t }.

(** [o.k]: [undefined] when the object has no such property. *)
Definition prop (o : Obj.t) (k : string) : jsval :=
  match Obj.lookup k o with
  | Some v => v
  | None => JUndefined
  end.

(** The default of a destructuring pattern [{ k = d }]: taken when the
    property is [undefined], and only then. *)
Definition or_default (v d : jsval) : jsval :=
  match v with
  | JUndefined => d
  | _ => v
  end.

(** [new Set(['day', 'week'])] *)
Definition VALID_TIME_PERIODS : list string := ["day"; "week"].

(** [set.has(x)] on a set of strings. *)
Definition has (set : list string) (x : jsval) : bool :=
  match x with
  | JStr s => existsb (String.eqb s) set
  | _ => false
  end.

(** The same request with the query parameter [k] given as [v]. *)
Definition with_query (k : string) (v : jsval) (request : Request) : Request :=
  MkRequest (params request) (Obj.set k v (query request)).

Section Routes.

(** [JSON.parse], [tmdbApi] (imported from main), [PROVIDERS_LIST.MOVIES]
    and the methods of [META.TMDB] come from outside this file. *)
Variable JSON_parse : string -> option jsval.
Variable tmdbApi : string.
Variable PROVIDERS_MOVIES : list Provider.
Variable search : TMDB -> jsval -> jsval -> Loader.
Variable fetchMediaInfo : TMDB -> jsval -> jsval -> Loader.
Variable fetchTrending : TMDB -> jsval -> jsval -> jsval -> Loader.
Variable fetchEpisodeSources : TMDB -> jsval -> jsval -> Loader.

(** [const tmdbInstance = new META.TMDB(tmdbApi)] *)
Definition tmdbInstance : TMDB := MkTMDB tmdbApi None.

(** [PROVIDERS_LIST.MOVIES.find((p) => p.name.toLowerCase() ===
    provider.toLowerCase())] for a string [provider]. *)
Definition possibleProvider (provider : string) : option Provider :=
  List.find (fun p => String.eqb (toLowerCase (name p)) (toLowerCase provider))
            PROVIDERS_MOVIES.

(** [createTMDB(provider)].  A truthy [provider] that is not a string has
    no [toLowerCase]: the callback of [find] throws on the first provider
    it is given. *)
Definition createTMDB (provider : jsval) : outcome TMDB :=
  if truthy provider then
    match provider with
    | JStr p => Ok (MkTMDB tmdbApi (possibleProvider p))
    | _ =>
        match PROVIDERS_MOVIES with
        | [] => Ok (MkTMDB tmdbApi None)
        | _ :: _ => Throw (TypeError "provider.toLowerCase is not a function")
        end
    end
  else Ok tmdbInstance.

(** The loader [() => { const tmdb = createTMDB(provider); return
    tmdb.method(...); }]. *)
Definition with_tmdb (provider : jsval) (method : TMDB -> Loader) : Loader :=
  fun n =>
    match createTMDB provider with
    | Ok tmdb => method tmdb n
    | Throw e => Throw e
    end.

(** [reply.status(400).send({ message })] *)
Definition bad_request (message : string) : M unit :=
  reply_status 400 ;;;
  reply_send (JObj [("message", JStr message)]).

(** [GET /:query] *)
Definition search_route (env : Env) (request : Request) : M unit :=
  let query_ := prop (params request) "query" in
  let page := or_default (prop (query request) "page") (JNum 1) in
  let cacheKey := getCacheKey "search" (Obj.literal [("query", query_); ("page", page)]) in
  fetchAndCache JSON_parse env cacheKey
    (with_tmdb JUndefined (fun tmdb => search tmdb query_ page)).

(** [GET /info/:id] *)
Definition info_route (env : Env) (request : Request) : M unit :=
  let id := prop (params request) "id" in
  let type := prop (query request) "type" in
  let provider_ := prop (query request) "provider" in
  if negb (truthy type) then
    bad_request "The 'type' query parameter is required"
  else
    let cacheKey :=
      getCacheKey "info" (Obj.literal [("id", id); ("type", type); ("provider", provider_)]) in
    fetchAndCache JSON_parse env cacheKey
      (with_tmdb provider_ (fun tmdb => fetchMediaInfo tmdb id type)).

(** [GET /trending] *)
Definition trending_route (env : Env) (request : Request) : M unit :=
  let type := or_default (prop (query request) "type") (JStr "all") in
  let timePeriod := or_default (prop (query request) "timePeriod") (JStr "day") in
  let page := or_default (prop (query request) "page") (JNum 1) in
  let validTimePeriod := if has VALID_TIME_PERIODS timePeriod then timePeriod else JStr "day" in
  let cacheKey :=
    getCacheKey "trending"
      (Obj.literal [("type", type); ("timePeriod", validTimePeriod); ("page", page)]) in
  fetchAndCache JSON_parse env cacheKey (fetchTrending tmdbInstance type validTimePeriod page).

(** [GET /watch/:episodeId] *)
Definition watch_route (env : Env) (request : Request) : M unit :=
  let episodeId := prop (params request) "episodeId" in
  let id := prop (query request) "id" in
  let provider_ := prop (query request) "provider" in
  if negb (truthy id) then
    bad_request "The 'id' query parameter is required"
  else
    let cacheKey :=
      getCacheKey "watch"
        (Obj.literal [("episodeId", episodeId); ("id", id); ("provider", provider_)]) in
    fetchAndCache JSON_parse env cacheKey
      (with_tmdb provider_ (fun tmdb => fetchEpisodeSources tmdb episodeId id)).

End Routes.

(** ** Sample requests to the routes *)

(** [GET /info/550?provider=flixhq]: the required [type] is missing. *)
Definition info_without_type : Request :=
  MkRequest [("id", JStr "550")] [("provider", JStr "flixhq")].

(** [GET /info/550?type=movie] *)
Definition info_movie : Request :=
  MkRequest [("id", JStr "550")] [("type", JStr "movie")].

(** [GET /watch/ep-1]: the required [id] is missing. *)
Definition watch_without_id : Request :=
  MkRequest [("episodeId", JStr "ep-1")] [].

(** [GET /trending?timePeriod=month] *)
Definition trending_month : Request :=
  MkRequest [] [("timePeriod", JStr "month")].

(** [GET /naruto] and [GET /naruto?page=1] as the server receives them. *)
Definition search_naruto : Request := MkRequest [("query", JStr "naruto")] [].
Definition search_naruto_page1 : Request :=
  MkRequest [("query", JStr "naruto")] [("page", JStr "1")].

(** Upstream methods that answer with what they were asked. *)
Definition echo2 : TMDB -> jsval -> jsval -> Loader :=
  fun _ a b _ => Ok (JArr [a; b]).
Definition echo3 : TMDB -> jsval -> jsval -> jsval -> Loader :=
  fun _ a b c _ => Ok (JArr [a; b; c]).

(** The parameter bag [{ k1: v1, ..., kn: vn }] of string values. *)
Definition string_bag (ks : list string) (vs : list string) : Obj.t :=
  combine ks (List.map JStr vs).

(** The text [JSON.stringify] gives one string-valued property. *)
Definition member_text (kv : string * string) : string :=
  JSON.quote (fst kv) +:+ ":" +:+ JSON.quote (snd kv).

(** [GET /info/550?type=movie&provider=a&provider=b]: a repeated
    parameter reaches the handler as an array. *)
Definition info_two_providers : Request :=
  MkRequest [("id", JStr "550")]
            [("type", JStr "movie"); ("provider", JArr [JStr "a"; JStr "b"])].

(** ** The routes of [dramacool.ts] *)

(** The members of [StreamingServers] this file names. *)
Inductive StreamingServers : Type :=
| AsianLoad
| MixDrop
| StreamTape
| StreamSB.

(** The [case] label that selects each of them. *)
Definition server_label (server : StreamingServers) : string :=
  match server with
  | AsianLoad => "asianload"
  | MixDrop => "mixdrop"
  | StreamTape => "streamtape"
  | StreamSB => "streamsb"
  end.

(** What the server switch of the watch route leaves behind: the value of
    [server], or the reply [400 Invalid server specified] and a return. *)
Inductive selection : Type :=
| Selected (server : option StreamingServers)
| Invalid.

(** The block [let server = undefined; if (serverString) { switch
    (serverString.toLowerCase()) { ... } }] of the watch route.  A truthy
    [serverString] that is not a string has no [toLowerCase]. *)
Definition select_server (serverString : jsval) : outcome selection :=
  if truthy serverString then
    match serverString with
    | JStr s =>
        let lowered := toLowerCase s in
        if String.eqb lowered "asianload" then Ok (Selected (Some AsianLoad))
        else if String.eqb lowered "mixdrop" then Ok (Selected (Some MixDrop))
        else if String.eqb lowered "streamtape" then Ok (Selected (Some StreamTape))
        else if String.eqb lowered "streamsb" then Ok (Selected (Some StreamSB))
        else Ok Invalid
    | _ => Throw (TypeError "serverString.toLowerCase is not a function")
    end
  else Ok (Selected None).

(** The error [decodeURIComponent] raises on a malformed escape. *)
Definition URIError (message : string) : exn :=
  Rejection (JObj [("name", JStr "URIError"); ("message", JStr message)]).

Definition something_went_wrong : jsval :=
  JObj [("message", JStr "Something went wrong. Please try again later.")].

Definition something_went_wrong_contact : jsval :=
  JObj [("message",
         JStr "Something went wrong. Please try again later or contact the developers.")].

Section Dramacool.

(** The methods of [MOVIES.DramaCool] and [decodeURIComponent] ([None]
    when it throws) come from outside this file. *)
Variable fetchRecentMovies : jsval -> Loader.
Variable fetchRecentTvShows : jsval -> Loader.
Variable fetchPopular : jsval -> Loader.
Variable dramacool_search : string -> jsval -> Loader.
Variable decodeURIComponent : jsval -> option string.

(** The shape shared by the three listing routes: [try { const results =
    await fetch(page ? page : 1); reply.status(200).send(results); }
    catch (err) { reply.status(500).send({ message }) }]. *)
Definition listing_route (fetch : jsval -> Loader) (env : Env) (request : Request) : M unit :=
  try_catch
    (let page := prop (query request) "page" in
     results <- await_fetch env (fetch (if truthy page then page else JNum 1)) ;;
     reply_status 200 ;;;
     reply_send results)
    (fun _ => reply_status 500 ;;; reply_send something_went_wrong).

(** [GET /recent-movies] *)
Definition recent_movies_route : Env -> Request -> M unit :=
  listing_route fetchRecentMovies.

(** [GET /recent-shows] *)
Definition recent_shows_route : Env -> Request -> M unit :=
  listing_route fetchRecentTvShows.

(** [GET /popular] *)
Definition popular_route : Env -> Request -> M unit :=
  listing_route fetchPopular.

(** [GET /:query] of the dramacool provider. *)
Definition dramacool_search_route (env : Env) (request : Request) : M unit :=
  try_catch
    (match decodeURIComponent (prop (params request) "query") with
     | Some query_ =>
         let page := prop (query request) "page" in
         res <- await_fetch env (dramacool_search query_ page) ;;
         reply_status 200 ;;;
         reply_send res
     | None => throw (URIError "URI malformed")
     end)
    (fun _ => reply_status 500 ;;; reply_send something_went_wrong_contact).

End Dramacool.

(** [GET /popular?page=0], and an upstream that answers with the page it
    was asked for. *)
Definition popular_page0 : Request := MkRequest [] [("page", JNum 0)].
Definition echo_page : jsval -> Loader := fun page _ => Ok page.

(** [GET /%E0%A4%A] with a decoder that refuses everything. *)
Definition search_malformed : Request := MkRequest [("query", JStr "%E0%A4%A")] [].
Definition refuse_all : jsval -> option string := fun _ => None.

(** * Properties *)

(** ** Cache keys *)

Lemma lookup_absent (k : string) (o : Obj.t) :
  k ∉ Obj.keys o -> Obj.lookup k o = None.
Proof.
  induction o as [|[k' v] o IH]; intros Hk; [reflexivity|].
  cbn in *. apply not_elem_of_cons in Hk as [Hne Hk].
  destruct (String.eqb_spec k k') as [->|_]; [contradiction|auto].
Qed.

Lemma same_bag_same_order (p1 p2 : Obj.t) :
  NoDup (Obj.keys p1) -> NoDup (Obj.keys p2) ->
  Obj.same_bag p1 p2 -> Obj.keys p1 = Obj.keys p2 -> p1 = p2.
Proof.
  revert p2. induction p1 as [|[k1 v1] p1 IH]; intros [|[k2 v2] p2] N1 N2 Hb Hk;
    try discriminate; [reflexivity|].
  cbn in Hk. injection Hk as -> Hk.
  apply NoDup_cons in N1 as [A1 N1]. apply NoDup_cons in N2 as [A2 N2].
  pose proof (Hb k2) as Hhead. cbn in Hhead. rewrite String.eqb_refl in Hhead.
  injection Hhead as ->. f_equal.
  apply IH; auto.
  intros k. specialize (Hb k). cbn in Hb.
  destruct (String.eqb_spec k k2) as [E|_]; [subst k|exact Hb].
  rewrite !lookup_absent; auto.
Qed.

(** *** Array-index names

    [array_index] reads the canonical decimal form, so two names with the
    same index are the same name. *)

Lemma digits_value_bound (s : string) (acc n : N) :
  JSON.digits_value s acc = Some n ->
  exists v, (n = acc * 10 ^ N.of_nat (String.length s) + v /\ v < 10 ^ N.of_nat (String.length s))%N.
Proof.
  revert acc. induction s as [|c s IH]; intros acc; cbn [JSON.digits_value String.length].
  - intros [= <-]. exists 0%N. cbn. lia.
  - destruct (JSON.is_digit c) eqn:D; [|discriminate].
    intros H. destruct (IH _ H) as (v & -> & Hv).
    unfold JSON.is_digit in D. apply andb_true_iff in D as [D1 D2].
    apply Nat.leb_le in D1, D2.
    set (d := N.of_nat (nat_of_ascii c - 48)) in *.
    assert (d < 10)%N as Hd by (unfold d; lia).
    rewrite Nat2N.inj_succ, N.pow_succ_r'.
    set (P := (10 ^ N.of_nat (String.length s))%N) in *.
    exists (d * P + v)%N. split; [lia|nia].
Qed.

Lemma digit_inj (c1 c2 : ascii) :
  JSON.is_digit c1 = true -> JSON.is_digit c2 = true ->
  N.of_nat (nat_of_ascii c1 - 48) = N.of_nat (nat_of_ascii c2 - 48) -> c1 = c2.
Proof.
  unfold JSON.is_digit. intros D1 D2 H.
  apply andb_true_iff in D1 as [A1 B1]. apply andb_true_iff in D2 as [A2 B2].
  apply Nat.leb_le in A1, B1, A2, B2.
  rewrite <- (ascii_nat_embedding c1), <- (ascii_nat_embedding c2). f_equal. lia.
Qed.

Lemma digits_value_inj (s1 s2 : string) (a1 a2 n : N) :
  String.length s1 = String.length s2 ->
  JSON.digits_value s1 a1 = Some n -> JSON.digits_value s2 a2 = Some n ->
  a1 = a2 /\ s1 = s2.
Proof.
  revert s2 a1 a2. induction s1 as [|c1 s1 IH]; intros [|c2 s2] a1 a2 L; try discriminate.
  - cbn. intros [= ->] [= ->]. auto.
  - cbn [JSON.digits_value].
    destruct (JSON.is_digit c1) eqn:D1; [|discriminate].
    destruct (JSON.is_digit c2) eqn:D2; [|discriminate].
    intros H1 H2. cbn in L. injection L as L.
    destruct (IH s2 _ _ L H1 H2) as (Ha & ->).
    assert (N.of_nat (nat_of_ascii c1 - 48) < 10 /\ N.of_nat (nat_of_ascii c2 - 48) < 10)%N
      as [B1 B2].
    { unfold JSON.is_digit in D1, D2.
      apply andb_true_iff in D1 as [_ B1]. apply andb_true_iff in D2 as [_ B2].
      apply Nat.leb_le in B1, B2. lia. }
    assert (a1 = a2 /\ N.of_nat (nat_of_ascii c1 - 48) = N.of_nat (nat_of_ascii c2 - 48))
      as [-> Hd] by lia.
    split; [reflexivity|]. f_equal. apply digit_inj; assumption.
Qed.


Lemma leading_digit (c : ascii) (rest : string) (n : N) :
  JSON.array_index (String c rest) = Some n ->
  (n = 0%N /\ String c rest = "0") \/
  (10 ^ N.of_nat (String.length rest) <= n < 10 ^ N.of_nat (S (String.length rest)))%N.
Proof.
  unfold JSON.array_index.
  destruct (Nat.eqb (nat_of_ascii c) 48 && negb (String.eqb rest EmptyString)) eqn:Z0;
    [discriminate|].
  destruct (Nat.ltb 10 (String.length (String c rest))); [discriminate|].
  destruct (JSON.digits_value (String c rest) 0) as [m|] eqn:D; [|discriminate].
  destruct (m <? 4294967295)%N; [|discriminate]. intros [= ->].
  cbn [JSON.digits_value] in D.
  destruct (JSON.is_digit c) eqn:Dc; [|discriminate].
  destruct (digits_value_bound _ _ _ D) as (v & Hn & Hv).
  unfold JSON.is_digit in Dc. apply andb_true_iff in Dc as [A B].
  apply Nat.leb_le in A, B.
  destruct (Nat.eqb_spec (nat_of_ascii c) 48) as [E|NE].
  - left. cbn [andb] in Z0. apply negb_false_iff in Z0. apply String.eqb_eq in Z0.
    subst rest. cbn in Hn, Hv. rewrite E in Hn. cbn in Hn.
    split; [lia|]. f_equal.
    rewrite <- (ascii_nat_embedding c), E. reflexivity.
  - right. rewrite Nat2N.inj_succ, N.pow_succ_r'.
    set (P := (10 ^ N.of_nat (String.length rest))%N) in *.
    assert (1 <= N.of_nat (nat_of_ascii c - 48) < 10)%N by lia.
    nia.
Qed.

Lemma array_index_inj (k1 k2 : string) (n : N) :
  JSON.array_index k1 = Some n -> JSON.array_index k2 = Some n -> k1 = k2.
Proof.
  destruct k1 as [|c1 r1]; [discriminate|]. destruct k2 as [|c2 r2]; [discriminate|].
  intros H1 H2.
  destruct (leading_digit _ _ _ H1) as [[Z1 E1]|[L1 U1]];
    destruct (leading_digit _ _ _ H2) as [[Z2 E2]|[L2 U2]].
  - congruence.
  - subst n. pose proof (N.pow_nonzero 10 (N.of_nat (String.length r2))). lia.
  - subst n. pose proof (N.pow_nonzero 10 (N.of_nat (String.length r1))). lia.
  - assert (String.length r1 = String.length r2) as L.
    { destruct (Nat.lt_trichotomy (String.length r1) (String.length r2)) as [Lt|[E|Gt]];
        [exfalso|exact E|exfalso].
      - assert (10 ^ N.of_nat (S (String.length r1)) <= 10 ^ N.of_nat (String.length r2))%N
          by (apply N.pow_le_mono_r; lia).
        lia.
      - assert (10 ^ N.of_nat (S (String.length r2)) <= 10 ^ N.of_nat (String.length r1))%N
          by (apply N.pow_le_mono_r; lia).
        lia. }
    unfold JSON.array_index in H1, H2.
    destruct (Nat.eqb (nat_of_ascii c1) 48 && negb (String.eqb r1 EmptyString)); [discriminate|].
    destruct (Nat.eqb (nat_of_ascii c2) 48 && negb (String.eqb r2 EmptyString)); [discriminate|].
    destruct (Nat.ltb 10 (String.length (String c1 r1))); [discriminate|].
    destruct (Nat.ltb 10 (String.length (String c2 r2))); [discriminate|].
    destruct (JSON.digits_value (String c1 r1) 0) as [m1|] eqn:D1; [|discriminate].
    destruct (JSON.digits_value (String c2 r2) 0) as [m2|] eqn:D2; [|discriminate].
    destruct (m1 <? 4294967295)%N; [|discriminate].
    destruct (m2 <? 4294967295)%N; [|discriminate].
    injection H1 as ->. injection H2 as ->.
    apply (digits_value_inj _ _ 0%N 0%N n); [cbn; f_equal; exact L|exact D1|exact D2].
Qed.

(** *** The enumeration of own properties

    Among the properties of an object with one property per name, the
    index-named ones come out in strictly ascending order whatever the
    order of creation, and rendering the values leaves the order alone. *)

Section Ordering.
Context {A : Type}.

Lemma insert_index_In (n : N) (x : string * A) (l : list (N * (string * A))) y :
  In y (JSON.insert_index n x l) <-> y = (n, x) \/ In y l.
Proof.
  induction l as [|[m z] l IH]; cbn [JSON.insert_index].
  - cbn. intuition.
  - destruct (n <? m)%N; cbn [In]; [intuition|]. rewrite IH. cbn [In]. intuition.
Qed.

Lemma indexed_In (p : list (string * A)) (n : N) (kv : string * A) :
  In (n, kv) (JSON.indexed p) <-> In kv p /\ JSON.array_index (fst kv) = Some n.
Proof.
  induction p as [|[k v] p IH]; cbn [JSON.indexed In]; [tauto|].
  destruct (JSON.array_index k) as [m|] eqn:E.
  - rewrite insert_index_In, IH. split.
    + intros [[= -> ->]|[H1 H2]]; [split; [left; reflexivity|exact E]|split; [right; exact H1|exact H2]].
    + intros [[<-|H1] H2]; [left; cbn in H2; congruence|right; tauto].
  - rewrite IH. split; [tauto|].
    intros [[<-|H1] H2]; [cbn in H2; congruence|tauto].
Qed.

Lemma ascending_insert (n : N) (x : string * A) (l : list (N * (string * A))) :
  ascending l -> (forall y, In y l -> fst y <> n) -> ascending (JSON.insert_index n x l).
Proof.
  induction l as [|[m z] l IH]; cbn [JSON.insert_index]; intros Hs Hn.
  - cbn. split; [constructor|exact I].
  - destruct Hs as [Hall Hs].
    destruct (N.ltb_spec n m) as [Lt|Ge].
    + cbn [ascending]. split; [|split; assumption].
      constructor; [exact Lt|].
      rewrite List.Forall_forall in Hall. apply List.Forall_forall. intros y Hy.
      specialize (Hall y Hy). cbn [fst] in *. lia.
    + assert (m < n)%N as Lt.
      { pose proof (Hn (m, z) (or_introl eq_refl)) as Hne. cbn in Hne. lia. }
      cbn [ascending]. split.
      * apply List.Forall_forall. intros y Hy. apply insert_index_In in Hy as [->|Hy]; [exact Lt|].
        rewrite List.Forall_forall in Hall. apply Hall. exact Hy.
      * apply IH; [exact Hs|]. intros y Hy. apply Hn. right. exact Hy.
Qed.

Lemma indexed_ascending (p : list (string * A)) :
  NoDup (List.map fst p) -> ascending (JSON.indexed p).
Proof.
  induction p as [|[k v] p IH]; cbn [JSON.indexed List.map fst]; intros Hn; [exact I|].
  apply NoDup_cons in Hn as [Hk Hn].
  destruct (JSON.array_index k) as [n|] eqn:E; [|auto].
  apply ascending_insert; [auto|].
  intros [m [k' v']] Hy Hm. cbn in Hm. subst m.
  apply indexed_In in Hy as [Hin Hidx]. cbn in Hidx.
  apply Hk. rewrite (array_index_inj k k' n E Hidx).
  apply list_elem_of_In. apply (in_map fst) in Hin. exact Hin.
Qed.

Lemma ascending_unique {X : Type} (l1 l2 : list (N * X)) :
  ascending l1 -> ascending l2 -> (forall x, In x l1 <-> In x l2) -> l1 = l2.
Proof.
  revert l2. induction l1 as [|a l1 IH]; intros [|b l2] S1 S2 H.
  - reflexivity.
  - exfalso. apply (proj2 (H b)). left. reflexivity.
  - exfalso. apply (proj1 (H a)). left. reflexivity.
  - destruct S1 as [A1 S1]. destruct S2 as [A2 S2].
    rewrite List.Forall_forall in A1, A2.
    assert (a = b) as ->.
    { destruct (proj1 (H a) (or_introl eq_refl)) as [E|Ha]; [auto|].
      destruct (proj2 (H b) (or_introl eq_refl)) as [E|Hb]; [auto|].
      specialize (A1 _ Hb). specialize (A2 _ Ha). lia. }
    f_equal. apply IH; auto.
    intros x. split; intros Hx.
    + destruct (proj1 (H x) (or_intror Hx)) as [E|Hx']; [|exact Hx'].
      subst x. specialize (A1 _ Hx). lia.
    + destruct (proj2 (H x) (or_intror Hx)) as [E|Hx']; [|exact Hx'].
      subst x. specialize (A2 _ Hx). lia.
Qed.

Variable B : Type.
Variable g : A -> B.

Lemma insert_index_render (n : N) (x : string * A) (l : list (N * (string * A))) :
  JSON.insert_index n (fst x, g (snd x))
    (List.map (fun y => (fst y, (fst (snd y), g (snd (snd y))))) l) =
  List.map (fun y => (fst y, (fst (snd y), g (snd (snd y))))) (JSON.insert_index n x l).
Proof.
  induction l as [|[m z] l IH]; cbn [JSON.insert_index List.map fst snd]; [reflexivity|].
  destruct (n <? m)%N; cbn [List.map fst snd]; [reflexivity|]. rewrite IH. reflexivity.
Qed.

Lemma indexed_render (p : list (string * A)) :
  JSON.indexed (List.map (fun kv => (fst kv, g (snd kv))) p) =
  List.map (fun y => (fst y, (fst (snd y), g (snd (snd y))))) (JSON.indexed p).
Proof.
  induction p as [|[k v] p IH]; cbn [JSON.indexed List.map fst snd]; [reflexivity|].
  destruct (JSON.array_index k); [|exact IH].
  rewrite IH. apply (insert_index_render n (k, v)).
Qed.

Lemma named_render (p : list (string * A)) :
  JSON.named (List.map (fun kv => (fst kv, g (snd kv))) p) =
  List.map (fun kv => (fst kv, g (snd kv))) (JSON.named p).
Proof.
  unfold JSON.named.
  induction p as [|[k v] p IH]; cbn [List.filter List.map fst snd]; [reflexivity|].
  destruct (JSON.array_index k); cbn [List.map fst snd]; rewrite IH; reflexivity.
Qed.

Lemma own_properties_render (p : list (string * A)) :
  JSON.own_properties (List.map (fun kv => (fst kv, g (snd kv))) p) =
  List.map (fun kv => (fst kv, g (snd kv))) (JSON.own_properties p).
Proof.
  unfold JSON.own_properties.
  rewrite indexed_render, named_render, List.map_app, !List.map_map. reflexivity.
Qed.

End Ordering.

Lemma lookup_In (k : string) (v : jsval) (o : Obj.t) :
  Obj.lookup k o = Some v -> In (k, v) o.
Proof.
  induction o as [|[k' v'] o IH]; cbn; [discriminate|].
  destruct (String.eqb_spec k k') as [->|_]; [intros [= ->]; auto|auto].
Qed.

Lemma In_lookup (k : string) (v : jsval) (o : Obj.t) :
  NoDup (Obj.keys o) -> In (k, v) o -> Obj.lookup k o = Some v.
Proof.
  induction o as [|[k' v'] o IH]; cbn; [tauto|].
  intros Hn. apply NoDup_cons in Hn as [Hk Hn].
  intros [[= -> ->]|Hin]; [rewrite String.eqb_refl; reflexivity|].
  destruct (String.eqb_spec k k') as [->|_]; [|auto].
  exfalso. apply Hk. apply list_elem_of_In. apply (in_map fst) in Hin. exact Hin.
Qed.

Lemma lookup_named (k : string) (o : Obj.t) :
  Obj.lookup k (JSON.named o) =
  match JSON.array_index k with Some _ => None | None => Obj.lookup k o end.
Proof.
  unfold JSON.named.
  induction o as [|[k' v'] o IH]; cbn [List.filter fst Obj.lookup].
  - destruct (JSON.array_index k); reflexivity.
  - destruct (JSON.array_index k') as [n|] eqn:E'.
    + rewrite IH. destruct (String.eqb_spec k k') as [->|_]; [rewrite E'|]; reflexivity.
    + cbn [Obj.lookup]. destruct (String.eqb_spec k k') as [->|_]; [rewrite E'; reflexivity|exact IH].
Qed.

Lemma named_nodup (o : Obj.t) : NoDup (Obj.keys o) -> NoDup (Obj.keys (JSON.named o)).
Proof.
  unfold JSON.named, Obj.keys.
  induction o as [|[k v] o IH]; cbn [List.filter List.map fst]; intros Hn; [exact Hn|].
  apply NoDup_cons in Hn as [Hk Hn].
  destruct (JSON.array_index k); [auto|].
  cbn [List.map fst]. apply NoDup_cons_2; [|auto].
  intros Hin. apply Hk. apply list_elem_of_In in Hin. apply list_elem_of_In.
  apply in_map_iff in Hin as (x & <- & Hx). apply List.filter_In in Hx as [Hx _].
  apply in_map. exact Hx.
Qed.

Lemma same_bag_own_properties (p1 p2 : Obj.t) :
  NoDup (Obj.keys p1) -> NoDup (Obj.keys p2) ->
  Obj.same_bag p1 p2 ->
  Obj.keys (JSON.named p1) = Obj.keys (JSON.named p2) ->
  JSON.own_properties p1 = JSON.own_properties p2.
Proof.
  intros N1 N2 Hb Hk. unfold JSON.own_properties. f_equal.
  - f_equal. apply ascending_unique; try (apply indexed_ascending; assumption).
    intros [n [k v]]. rewrite !indexed_In. cbn [fst].
    split; intros [Hin Hidx]; (split; [|exact Hidx]); apply lookup_In.
    + rewrite <- Hb. apply In_lookup; assumption.
    + rewrite Hb. apply In_lookup; assumption.
  - apply same_bag_same_order; try (apply named_nodup; assumption); [|exact Hk].
    intros k. rewrite !lookup_named. destruct (JSON.array_index k); [reflexivity|apply Hb].
Qed.

(** C2, amended.  [getCacheKey] is a function of the route and of the
    parameter object as JavaScript enumerates it.  The key does not
    depend on when the array-index names of the bag were created, and it
    depends on the creation order of the other names only: two bags
    with the same keys mapped to the same values, whose names that are
    not array indices were created in the same relative order, yield the
    same key. *)
Theorem getCacheKey_creation_order (route : string) (p1 p2 : Obj.t) :
  NoDup (Obj.keys p1) -> NoDup (Obj.keys p2) ->
  Obj.same_bag p1 p2 ->
  Obj.keys (JSON.named p1) = Obj.keys (JSON.named p2) ->
  getCacheKey route p1 = getCacheKey route p2.
Proof.
  intros N1 N2 Hb Hk. unfold getCacheKey. cbn [JSON.stringify]. unfold JSON.members.
  rewrite !(own_properties_render _ JSON.stringify).
  rewrite (same_bag_own_properties p1 p2 N1 N2 Hb Hk). reflexivity.
Qed.

Lemma search_params_same_bag : Obj.same_bag search_params search_params_swapped.
Proof.
  intros k. cbn.
  destruct (String.eqb_spec k "query") as [E|_]; [subst k; reflexivity|].
  destruct (String.eqb_spec k "page"); reflexivity.
Qed.

Lemma indexed_params_same_bag : Obj.same_bag indexed_params indexed_params_reordered.
Proof.
  intros k. cbn.
  destruct (String.eqb_spec k "10") as [E|_]; [subst k; reflexivity|].
  destruct (String.eqb_spec k "2") as [E|_]; [subst k; reflexivity|].
  destruct (String.eqb_spec k "page"); reflexivity.
Qed.

Lemma three_names_nodup (a b c : string) :
  a <> b -> a <> c -> b <> c -> NoDup [a; b; c].
Proof.
  intros AB AC BC.
  apply NoDup_cons_2; [|apply NoDup_cons_2; [|apply NoDup_singleton]].
  - intros H. apply elem_of_cons in H as [E|H]; [contradiction|].
    apply list_elem_of_singleton in H. contradiction.
  - intros H. apply list_elem_of_singleton in H. contradiction.
Qed.

Lemma getCacheKey_creation_order_witness :
  indexed_params <> indexed_params_reordered /\
  getCacheKey "search" indexed_params = getCacheKey "search" indexed_params_reordered.
Proof.
  refine (conj _ (getCacheKey_creation_order "search" indexed_params indexed_params_reordered
                    _ _ indexed_params_same_bag eq_refl)).
  - discriminate.
  - apply three_names_nodup; discriminate.
  - apply three_names_nodup; discriminate.
Defined.

(** C2 as stated fails: the two bags below hold the same keys and values
    and differ only in insertion order, and their keys differ. *)
Lemma getCacheKey_order_dependent :
  Obj.same_bag search_params search_params_swapped /\
  getCacheKey "search" search_params <> getCacheKey "search" search_params_swapped.
Proof.
  split; [exact search_params_same_bag|].
  vm_compute. discriminate.
Qed.

(** ** The local tier *)

Section LocalTier.
Import LRUCache.

Lemma find_remove_same (k : string) (es : list entry) : find k (remove k es) = None.
Proof.
  induction es as [|e es IH]; [reflexivity|].
  unfold find, remove in *. cbn.
  destruct (has_key k e) eqn:E; cbn; [exact IH|].
  rewrite E. exact IH.
Qed.

Lemma remove_absent (k : string) (es : list entry) :
  find k es = None -> remove k es = es.
Proof.
  induction es as [|e es IH]; [reflexivity|].
  unfold find, remove in *. cbn.
  destruct (has_key k e) eqn:E; [discriminate|].
  cbn. intros H. f_equal. auto.
Qed.

Lemma find_removelast (k : string) (es : list entry) :
  find k es = None -> find k (removelast es) = None.
Proof.
  induction es as [|e es IH]; [reflexivity|].
  unfold find in *. cbn.
  destruct (has_key k e) eqn:E; [discriminate|].
  intros H. destruct es as [|e' es]; [reflexivity|].
  cbn [List.find removelast]. rewrite E. apply IH. exact H.
Qed.

Lemma find_has_key (k : string) (es : list entry) (e : entry) :
  find k es = Some e -> key e = k.
Proof.
  unfold find. intros H. apply find_some in H as [_ H].
  unfold has_key in H. apply String.eqb_eq in H. congruence.
Qed.

(** Entries written by [set] are kept by [get] and [set] of other keys
    only as they were: everything in the cache comes from what was there. *)
Lemma remove_incl (k : string) (es : list entry) (e : entry) :
  In e (remove k es) -> In e es.
Proof. unfold remove. intros H. apply filter_In in H. tauto. Qed.

Lemma removelast_incl (es : list entry) (e : entry) :
  In e (removelast es) -> In e es.
Proof.
  induction es as [|a es IH]; [tauto|].
  destruct es as [|b es]; [cbn; tauto|].
  cbn [removelast]. intros [->|H]; [left; reflexivity|right; auto].
Qed.

Lemma find_In (k : string) (es : list entry) (e : entry) :
  find k es = Some e -> In e es.
Proof. unfold find. intros H. apply find_some in H. tauto. Qed.

Lemma get_entries_incl (c : t) (k : string) (now : Z) (e : entry) :
  In e (entries (snd (get c k now))) -> In e (entries c).
Proof.
  unfold get. destruct (find k (entries c)) as [e0|] eqn:F; [|auto].
  destruct (isStale c e0 now); cbn.
  - apply remove_incl.
  - intros [<-|H]; [eapply find_In; eauto|eapply remove_incl; eauto].
Qed.

Lemma get_max (c : t) (k : string) (now : Z) : max (snd (get c k now)) = max c.
Proof.
  unfold get. destruct (find k (entries c)); [|reflexivity].
  destruct (isStale c _ now); reflexivity.
Qed.

Lemma get_ttl (c : t) (k : string) (now : Z) : ttl (snd (get c k now)) = ttl c.
Proof.
  unfold get. destruct (find k (entries c)); [|reflexivity].
  destruct (isStale c _ now); reflexivity.
Qed.

Lemma set_ttl (c : t) (k : string) (v : jsval) (now : Z) : ttl (set c k v now) = ttl c.
Proof.
  unfold set. destruct v; try reflexivity; destruct (find k (entries c)); reflexivity.
Qed.

(** What [set] leaves in the cache for a defined value. *)
Lemma set_entries (c : t) (k : string) (v : jsval) (now : Z) :
  v <> JUndefined ->
  exists rest, entries (set c k v now) = Entry k v now :: rest /\ find k rest = None.
Proof.
  intros Hv. unfold set.
  destruct (find k (entries c)) as [e|] eqn:F.
  - exists (remove k (entries c)). split; [|apply find_remove_same].
    destruct v; try reflexivity. contradiction.
  - eexists. split.
    + destruct v; try reflexivity. contradiction.
    + cbv zeta. destruct (_ && _); [apply find_removelast|]; exact F.
Qed.

(** A value just written is read back until its TTL has elapsed. *)
Lemma get_set_same (c : t) (k : string) (v : jsval) (t0 t1 : Z) :
  v <> JUndefined ->
  ttl c = 0 \/ t1 - t0 <= ttl c ->
  get (set c k v t0) k t1 = (v, set c k v t0).
Proof.
  intros Hv Ht.
  destruct (set_entries c k v t0 Hv) as (rest & E & F).
  pose proof (set_ttl c k v t0) as Httl.
  destruct (set c k v t0) as [m tl es]. cbn in *. subst es tl.
  unfold get, find. cbn. unfold has_key at 1. cbn. rewrite String.eqb_refl.
  assert (isStale (Cache m (ttl c) (Entry k v t0 :: rest)) (Entry k v t0) t1 = false) as ->.
  { unfold isStale. cbn. destruct Ht as [->|Ht]; [reflexivity|].
    apply andb_false_iff. right. apply Z.ltb_ge. exact Ht. }
  unfold with_entries, remove. cbn. unfold has_key at 1. cbn. rewrite String.eqb_refl. cbn.
  fold (remove k rest). rewrite (remove_absent k rest F). reflexivity.
Qed.


Lemma get_present (c : t) (k : string) (now : Z) (e : entry) :
  find k (entries c) = Some e ->
  get c k now = if isStale c e now then (JUndefined, delete c k)
                else (value e, with_entries c (e :: remove k (entries c))).
Proof. unfold get. intros ->. reflexivity. Qed.



End LocalTier.

Section Expiry.
Import LRUCache.

Lemma find_none_key (k : string) (es : list entry) (e : entry) :
  find k es = None -> In e es -> key e <> k.
Proof.
  unfold find. intros F HIn E.
  pose proof (find_none _ _ F e HIn) as H. unfold has_key in H.
  rewrite E, String.eqb_refl in H. discriminate.
Qed.

Lemma written_by_set (c : t) (k : string) (v : jsval) (t0 : Z) :
  written_by k t0 (set c k v t0).
Proof.
  intros e HIn Hk. destruct v.
  1: { cbn in HIn. apply filter_In in HIn as [_ H]. unfold has_key in H.
       rewrite <- Hk, String.eqb_refl in H. discriminate. }
  all: match type of HIn with In _ (entries (set _ _ ?v _)) =>
         destruct (set_entries c k v t0) as (rest & E & F); [discriminate|] end.
  all: rewrite E in HIn; destruct HIn as [<-|HIn]; [cbn; lia|].
  all: exfalso; exact (find_none_key k rest e F HIn Hk).
Qed.

Lemma written_by_get (c : t) (k k' : string) (t0 now : Z) :
  written_by k t0 c -> written_by k t0 (snd (get c k' now)).
Proof. intros H e HIn. apply H. eapply get_entries_incl. exact HIn. Qed.

Lemma set_entries_incl (c : t) (k : string) (v : jsval) (now : Z) (e : entry) :
  In e (entries (set c k v now)) -> e = Entry k v now \/ In e (entries c).
Proof.
  unfold set.
  assert (In e (entries (delete c k)) -> In e (entries c)) as Hdel
    by (cbn; apply remove_incl).
  assert (In e (entries
            match find k (entries c) with
            | Some _ => with_entries c (Entry k v now :: remove k (entries c))
            | None =>
                let size := length (entries c) in
                let kept := if Nat.ltb 0 size && Nat.eqb size (max c)
                            then removelast (entries c) else entries c in
                with_entries c (Entry k v now :: kept)
            end) -> e = Entry k v now \/ In e (entries c)) as Hset.
  { destruct (find k (entries c)); cbn.
    - intros [<-|H]; [left; reflexivity|right; eapply remove_incl; eauto].
    - intros [<-|H]; [left; reflexivity|right].
      destruct (_ && _); [apply removelast_incl|]; exact H. }
  destruct v; auto.
Qed.

Lemma written_by_set_other (c : t) (k k' : string) (v : jsval) (t0 now : Z) :
  String.eqb k k' = false ->
  written_by k t0 c -> written_by k t0 (set c k' v now).
Proof.
  intros Hne H e HIn Hk. apply set_entries_incl in HIn as [->|HIn]; [|auto].
  cbn in Hk. subst k'. rewrite String.eqb_refl in Hne. discriminate.
Qed.

Lemma cache_run_ttl (c : t) (ops : list (cache_op * Z)) :
  ttl (snd (cache_run c ops)) = ttl c.
Proof.
  revert c. induction ops as [|[[k'|k' v'] now] ops IH]; intros c; [reflexivity| |].
  - cbn. pose proof (get_ttl c k' now) as H. destruct (get c k' now) as [v c']. cbn in H.
    specialize (IH c'). destruct (cache_run c' ops). cbn in *. congruence.
  - cbn. rewrite IH. apply set_ttl.
Qed.

Lemma cache_run_written_by (k : string) (t0 : Z) (ops : list (cache_op * Z)) (c : t) :
  forallb (fun o => negb (overwrites k o)) ops = true ->
  written_by k t0 c -> written_by k t0 (snd (cache_run c ops)).
Proof.
  revert c. induction ops as [|[[k'|k' v'] now] ops IH]; intros c Hops Hc; [exact Hc| |].
  - cbn in Hops. cbn.
    pose proof (written_by_get c k k' t0 now Hc) as H.
    destruct (get c k' now) as [v c']. cbn in H.
    specialize (IH c' Hops H). destruct (cache_run c' ops). exact IH.
  - cbn in Hops. apply andb_true_iff in Hops as [Hne Hops].
    cbn. apply IH; [exact Hops|].
    apply written_by_set_other; [|exact Hc].
    unfold overwrites in Hne. cbn in Hne. destruct (String.eqb k k'); [discriminate|reflexivity].
Qed.

Lemma expired_entry_not_returned (c : t) (k : string) (t0 now : Z) :
  0 < ttl c -> written_by k t0 c -> ttl c < now - t0 -> peek c k now = JUndefined.
Proof.
  intros Httl Hc Hlate. unfold peek, get.
  destruct (find k (entries c)) as [e|] eqn:F; [|reflexivity].
  assert (isStale c e now = true) as ->; [|reflexivity].
  pose proof (Hc e (find_In _ _ _ F) (find_has_key _ _ _ F)) as Hs.
  unfold isStale. apply andb_true_iff. split.
  - apply negb_true_iff, Z.eqb_neq. lia.
  - apply Z.ltb_lt. lia.
Qed.

End Expiry.

Section EvictionScenario.
Import LRUCache.

Lemma set_defined (c : t) (k : string) (v : jsval) (now : Z) :
  v <> JUndefined ->
  set c k v now =
  match find k (entries c) with
  | Some _ => with_entries c (Entry k v now :: remove k (entries c))
  | None =>
      let size := length (entries c) in
      let kept := if Nat.ltb 0 size && Nat.eqb size (max c)
                  then removelast (entries c) else entries c in
      with_entries c (Entry k v now :: kept)
  end.
Proof. intros Hv. destruct v; try reflexivity. contradiction. Qed.

Lemma fresh_in_window (m : nat) (ttl0 lo s n : Z) (es : list entry) (k : string) (v : jsval) :
  ttl0 = 0 \/ (lo <= s <= lo + ttl0 /\ lo <= n <= lo + ttl0) ->
  isStale (Cache m ttl0 es) (Entry k v s) n = false.
Proof.
  unfold isStale. cbn. intros [->|H]; [reflexivity|].
  apply andb_false_iff. right. apply Z.ltb_ge. lia.
Qed.

Lemma cache_run_set (c : t) (k : string) (v : jsval) (now : Z) (ops : list (cache_op * Z)) :
  cache_run c ((CSet k v, now) :: ops) = cache_run (set c k v now) ops.
Proof. reflexivity. Qed.

Lemma cache_run_get (c : t) (k : string) (now : Z) (ops : list (cache_op * Z)) :
  cache_run c ((CGet k, now) :: ops) =
  (fst (get c k now) :: fst (cache_run (snd (get c k now)) ops),
   snd (cache_run (snd (get c k now)) ops)).
Proof. cbn [cache_run]. destruct (get _ _ _). destruct (cache_run _ _). reflexivity. Qed.

Ltac simpl_cache :=
  repeat (cbn [entries ttl max find List.find key value remove List.filter negb
               length Nat.ltb Nat.leb Nat.eqb andb removelast fst snd];
          unfold has_key, with_entries, delete;
          rewrite ?String.eqb_refl;
          repeat match goal with
                 | H : String.eqb _ _ = false |- _ => rewrite H
                 end).

(** With room for two entries: A, B, C go in, A is gone; B is read and D
    goes in, C is gone. *)
Lemma eviction_scenario (ttl0 lo : Z) (a b c d : string) (va vb vc vd : jsval)
  (t1 t2 t3 t4 t5 t6 t7 t8 t9 t10 t11 : Z) :
  NoDup [a; b; c; d] ->
  va <> JUndefined -> vb <> JUndefined -> vc <> JUndefined -> vd <> JUndefined ->
  in_window ttl0 lo [t1; t2; t3; t4; t5; t6; t7; t8; t9; t10; t11] ->
  fst (cache_run (new 2 ttl0)
         [(CSet a va, t1); (CSet b vb, t2); (CSet c vc, t3);
          (CGet a, t4); (CGet b, t5); (CGet c, t6);
          (CGet b, t7); (CSet d vd, t8);
          (CGet b, t9); (CGet c, t10); (CGet d, t11)])
  = [JUndefined; vb; vc; vb; vb; JUndefined; vd].
Proof.
  intros ND Ha Hb Hc Hd W.
  assert (forall s n k v m es, In s [t1; t2; t3; t4; t5; t6; t7; t8; t9; t10; t11] ->
            In n [t1; t2; t3; t4; t5; t6; t7; t8; t9; t10; t11] ->
            isStale (Cache m ttl0 es) (Entry k v s) n = false) as Fresh.
  { intros s n k v m es Hs Hn. apply (fresh_in_window m ttl0 lo).
    destruct W as [->|W]; [left; reflexivity|right].
    rewrite Forall_forall in W. split; apply W; apply list_elem_of_In; assumption. }
  clear W.
  apply NoDup_cons in ND as [Na ND]. apply NoDup_cons in ND as [Nb ND].
  apply NoDup_cons in ND as [Nc _].
  assert (String.eqb a b = false /\ String.eqb a c = false /\ String.eqb a d = false /\
          String.eqb b c = false /\ String.eqb b d = false /\ String.eqb c d = false)
    as (Eab & Eac & Ead & Ebc & Ebd & Ecd).
  { repeat split; apply String.eqb_neq; intros E; subst; set_solver. }
  assert (String.eqb b a = false /\ String.eqb c a = false /\ String.eqb d a = false /\
          String.eqb c b = false /\ String.eqb d b = false /\ String.eqb d c = false)
    as (Eba & Eca & Eda & Ecb & Edb & Edc).
  { rewrite (String.eqb_sym b a), (String.eqb_sym c a), (String.eqb_sym d a),
      (String.eqb_sym c b), (String.eqb_sym d b), (String.eqb_sym d c).
    repeat split; assumption. }
  clear Na Nb Nc. unfold new.
  do 3 (rewrite cache_run_set; rewrite set_defined by assumption; simpl_cache).
  do 4 (rewrite cache_run_get; unfold get; simpl_cache;
        rewrite ?Fresh by (cbn; tauto); simpl_cache).
  rewrite cache_run_set; rewrite set_defined by assumption; simpl_cache.
  do 3 (rewrite cache_run_get; unfold get; simpl_cache;
        rewrite ?Fresh by (cbn; tauto); simpl_cache).
  reflexivity.
Qed.

(** C9.  The local tier obeys TTL and LRU semantics.  (1) An entry written
    under [k] at [t0] is not returned by a lookup made more than [ttl]
    later, whatever lookups and writes to other keys happen in between.
    (2) A new key arriving at a full cache drops exactly the least
    recently used entry.  (3) With [max = 2]: inserting A, B, C leaves A
    absent and B, C present; reading B and inserting D then leaves B and D
    present and C absent. *)
Theorem local_tier_ttl_and_lru :
  (forall (c : t) (k : string) (v : jsval) (t0 : Z) (ops : list (cache_op * Z)) (now : Z),
      0 < ttl c ->
      forallb (fun o => negb (overwrites k o)) ops = true ->
      ttl c < now - t0 ->
      peek (snd (cache_run (set c k v t0) ops)) k now = JUndefined)
  /\
  (forall (c : t) (k : string) (v : jsval) (now : Z),
      v <> JUndefined ->
      find k (entries c) = None ->
      (0 < length (entries c))%nat ->
      length (entries c) = max c ->
      exists front lru,
        entries c = (front ++ [lru])%list /\
        entries (set c k v now) = Entry k v now :: front)
  /\
  (forall (ttl0 lo : Z) (a b c d : string) (va vb vc vd : jsval)
          (t1 t2 t3 t4 t5 t6 t7 t8 t9 t10 t11 : Z),
      NoDup [a; b; c; d] ->
      va <> JUndefined -> vb <> JUndefined -> vc <> JUndefined -> vd <> JUndefined ->
      in_window ttl0 lo [t1; t2; t3; t4; t5; t6; t7; t8; t9; t10; t11] ->
      fst (cache_run (new 2 ttl0)
             [(CSet a va, t1); (CSet b vb, t2); (CSet c vc, t3);
              (CGet a, t4); (CGet b, t5); (CGet c, t6);
              (CGet b, t7); (CSet d vd, t8);
              (CGet b, t9); (CGet c, t10); (CGet d, t11)])
      = [JUndefined; vb; vc; vb; vb; JUndefined; vd]).
Proof.
  split; [|split].
  - intros c k v t0 ops now Httl Hops Hlate.
    apply (expired_entry_not_returned _ k t0).
    + rewrite cache_run_ttl, set_ttl. exact Httl.
    + apply cache_run_written_by; [exact Hops|apply written_by_set].
    + rewrite cache_run_ttl, set_ttl. exact Hlate.
  - intros c k v now Hv F Hpos Hfull.
    destruct (exists_last (l := entries c)) as (front & lru & E).
    { intros E. rewrite E in Hpos. cbn in Hpos. lia. }
    exists front, lru. split; [exact E|].
    rewrite set_defined by exact Hv. rewrite F. cbv zeta.
    apply Nat.ltb_lt in Hpos. rewrite Hpos. rewrite Hfull, Nat.eqb_refl. cbn [andb].
    cbn [entries with_entries]. rewrite E, removelast_last. reflexivity.
  - exact eviction_scenario.
Qed.

Lemma local_tier_ttl_and_lru_witness :
  peek (snd (cache_run (set memoryCache_init "tmdb:search:x" (JNum 7) 0)
                       [(CGet "tmdb:search:x", 900000); (CSet "tmdb:info:y" JNull, 900001)]))
       "tmdb:search:x" 1800001 = JUndefined
  /\
  (exists front lru,
      entries (Cache 2 0 [Entry "B" (JNum 2) 1; Entry "A" (JNum 1) 0]) = (front ++ [lru])%list /\
      entries (set (Cache 2 0 [Entry "B" (JNum 2) 1; Entry "A" (JNum 1) 0]) "C" (JNum 3) 2)
      = Entry "C" (JNum 3) 2 :: front)
  /\
  fst (cache_run (new 2 1000)
         [(CSet "A" (JNum 1), 0); (CSet "B" (JNum 2), 1); (CSet "C" (JNum 3), 2);
          (CGet "A", 3); (CGet "B", 4); (CGet "C", 5);
          (CGet "B", 6); (CSet "D" (JNum 4), 7);
          (CGet "B", 8); (CGet "C", 9); (CGet "D", 10)])
  = [JUndefined; JNum 2; JNum 3; JNum 2; JNum 2; JUndefined; JNum 4].
Proof.
  destruct local_tier_ttl_and_lru as (Httl & Hlru & Hscenario).
  split; [|split].
  - apply Httl; [reflexivity|reflexivity|reflexivity].
  - apply Hlru; [discriminate|reflexivity|cbn; lia|reflexivity].
  - apply (Hscenario 1000 0); try discriminate.
    + repeat (apply NoDup_cons_2; [intros H; repeat (apply elem_of_cons in H as [H|H]; [discriminate|]); inversion H|]).
      apply NoDup_nil_2.
    + right. repeat (apply Forall_cons; split; [lia|]). apply Forall_nil_2.
Defined.

End EvictionScenario.

(** ** The orchestrator, branch by branch *)

Section Branches.
Variable JSON_parse : string -> option jsval.
Variables (env : Env) (k : string) (f : Loader) (s : State).

Ltac run_call :=
  unfold cacheWrapper, check_redis, parse_text, bind, ret, throw, memoryCache_get,
    memoryCache_set, fastify_redis, redis_get, redis_set, reply_header, await_fetch,
    elapse, local_lookup, shared_lookup, shared_store in *;
  cbn [now memoryCache redis reply fetched fst snd] in *.

(** Step 1: a truthy local value is returned at once. *)
Lemma call_memory_hit (v : jsval) (c' : LRUCache.t) :
  local_lookup s k = (v, c') -> truthy v = true ->
  cacheWrapper JSON_parse env k f s =
  (Ok v, MkState (now s) c' (redis s) (with_header "X-Cache" "HIT-MEMORY" (reply s)) (fetched s)).
Proof. intros L T. run_call. rewrite L, T. reflexivity. Qed.

(** Step 2, rejected read: the rejection leaves [cacheWrapper] as it is. *)
Lemma call_redis_fault (v : jsval) (c' : LRUCache.t) (db : gmap string Redis.item) (e : exn) :
  local_lookup s k = (v, c') -> truthy v = false ->
  redis s = Some db -> redis_get_fault env = Some e ->
  cacheWrapper JSON_parse env k f s =
  (Throw e, MkState (now s + Z.of_N (redis_get_lag env)) c' (Some db) (reply s) (fetched s)).
Proof. intros L T R F. run_call. rewrite L, T, R. cbn. rewrite F. reflexivity. Qed.

(** Step 2, hit: the text is parsed, promoted and returned. *)
Lemma call_redis_hit (v : jsval) (c' : LRUCache.t) (db : gmap string Redis.item)
  (text : string) (parsed : jsval) :
  local_lookup s k = (v, c') -> truthy v = false ->
  redis s = Some db -> redis_get_fault env = None ->
  shared_lookup env db s k = Some text -> nonempty text = true ->
  JSON_parse text = Some parsed ->
  cacheWrapper JSON_parse env k f s =
  (Ok parsed,
   MkState (now s + Z.of_N (redis_get_lag env))
           (LRUCache.set c' k parsed (now s + Z.of_N (redis_get_lag env)))
           (Some db) (with_header "X-Cache" "HIT-REDIS" (reply s)) (fetched s)).
Proof.
  intros L T R F G N P. run_call. rewrite L, T, R. cbn. rewrite F, ?R. cbn.
  rewrite G, N, P. reflexivity.
Qed.

(** Step 2, text that does not parse: the [SyntaxError] escapes. *)
Lemma call_redis_garbled (v : jsval) (c' : LRUCache.t) (db : gmap string Redis.item)
  (text : string) :
  local_lookup s k = (v, c') -> truthy v = false ->
  redis s = Some db -> redis_get_fault env = None ->
  shared_lookup env db s k = Some text -> nonempty text = true ->
  JSON_parse text = None ->
  cacheWrapper JSON_parse env k f s =
  (Throw (SyntaxError text),
   MkState (now s + Z.of_N (redis_get_lag env)) c' (Some db) (reply s) (fetched s)).
Proof.
  intros L T R F G N P. run_call. rewrite L, T, R. cbn. rewrite F, ?R. cbn.
  rewrite G, N, P. reflexivity.
Qed.

(** Step 3 behind a configured shared tier that had nothing to offer. *)
Lemma call_miss_shared (v : jsval) (c' : LRUCache.t) (db : gmap string Redis.item) :
  local_lookup s k = (v, c') -> truthy v = false ->
  redis s = Some db -> redis_get_fault env = None ->
  truthy_reply (shared_lookup env db s k) = false ->
  let at_ := now s + Z.of_N (redis_get_lag env) + Z.of_N (fetch_lag env) in
  cacheWrapper JSON_parse env k f s =
  match f (fetched s) with
  | Ok data =>
      (Ok data,
       MkState at_ (LRUCache.set c' k data at_) (Some (shared_store env db k data at_))
               (with_header "X-Cache" "MISS" (reply s)) (S (fetched s)))
  | Throw e =>
      (Throw e,
       MkState at_ c' (Some db) (with_header "X-Cache" "MISS" (reply s)) (S (fetched s)))
  end.
Proof.
  intros L T R F G. run_call. rewrite L, T, R. cbn. rewrite F, ?R. cbn.
  unfold truthy_reply in G.
  destruct (Redis.GET db k _) as [text|]; [rewrite G|]; cbn.
  all: destruct (f (fetched s)) as [data|e]; [|reflexivity].
  all: rewrite ?R; cbn; destruct (redis_set_fault env); reflexivity.
Qed.

(** Step 3 when [fastify.redis] is [null]. *)
Lemma call_miss_local_only (v : jsval) (c' : LRUCache.t) :
  local_lookup s k = (v, c') -> truthy v = false ->
  redis s = None ->
  let at_ := now s + Z.of_N (fetch_lag env) in
  cacheWrapper JSON_parse env k f s =
  match f (fetched s) with
  | Ok data =>
      (Ok data,
       MkState at_ (LRUCache.set c' k data at_) None
               (with_header "X-Cache" "MISS" (reply s)) (S (fetched s)))
  | Throw e =>
      (Throw e, MkState at_ c' None (with_header "X-Cache" "MISS" (reply s)) (S (fetched s)))
  end.
Proof.
  intros L T R. run_call. rewrite L, T, R. cbn.
  destruct (f (fetched s)) as [data|e]; [|reflexivity].
  rewrite ?R. reflexivity.
Qed.

End Branches.

(** ** Facts about the two tiers *)

Lemma holds_lookup (c : LRUCache.t) (k : string) (v : jsval) (now : Z) :
  LRUCache.holds c k v now -> LRUCache.peek c k now = v.
Proof.
  intros (e & F & V & S). unfold LRUCache.peek.
  rewrite (get_present c k now e F), S. exact V.
Qed.


Lemma truthy_defined (v : jsval) : truthy v = true -> v <> JUndefined.
Proof. intros H ->. discriminate. Qed.

Lemma x_cache_with_header (label : string) (r : Reply) (t : Z) (c : LRUCache.t)
  (db : option (gmap string Redis.item)) (n : nat) :
  x_cache (MkState t c db (with_header "X-Cache" label r) n) = Some label.
Proof. unfold x_cache, with_header. cbn. apply lookup_insert_eq. Qed.

(** ** What [cacheWrapper] guarantees *)

(** C1, amended.  [cacheWrapper] does not recover from a failing shared
    tier.  When [fastify.redis] is configured and the local lookup yields
    nothing truthy, a rejected [get] makes [cacheWrapper] reject with the
    same error, and a stored text that [JSON.parse] refuses makes it
    reject with the [SyntaxError]; in both cases the loader is not
    invoked, no [X-Cache] label is set, neither tier is written, and
    [fetchAndCache] answers with status 500. *)
Theorem shared_tier_failure_propagates
  (JSON_parse : string -> option jsval) (env : Env) (k : string) (f : Loader)
  (s : State) (db : gmap string Redis.item) :
  redis s = Some db ->
  truthy (fst (local_lookup s k)) = false ->
  (forall e, redis_get_fault env = Some e ->
     let r := cacheWrapper JSON_parse env k f s in
     fst r = Throw e /\
     fetched (snd r) = fetched s /\
     reply (snd r) = reply s /\
     memoryCache (snd r) = snd (local_lookup s k) /\
     redis (snd r) = Some db /\
     statusCode (reply (snd (fetchAndCache JSON_parse env k f s))) = 500)
  /\
  (forall text, redis_get_fault env = None ->
     shared_lookup env db s k = Some text -> nonempty text = true ->
     JSON_parse text = None ->
     let r := cacheWrapper JSON_parse env k f s in
     fst r = Throw (SyntaxError text) /\
     fetched (snd r) = fetched s /\
     reply (snd r) = reply s /\
     memoryCache (snd r) = snd (local_lookup s k) /\
     redis (snd r) = Some db /\
     statusCode (reply (snd (fetchAndCache JSON_parse env k f s))) = 500).
Proof.
  intros R T. destruct (local_lookup s k) as [v c'] eqn:L. cbn [fst snd] in *.
  split.
  - intros e F. cbv zeta. unfold fetchAndCache, try_catch, bind.
    rewrite (call_redis_fault JSON_parse env k f s v c' db e L T R F).
    cbn. repeat split; reflexivity.
  - intros text F G N P. cbv zeta. unfold fetchAndCache, try_catch, bind.
    rewrite (call_redis_garbled JSON_parse env k f s v c' db text L T R F G N P).
    cbn. repeat split; reflexivity.
Qed.

Lemma shared_tier_failure_propagates_witness :
  (let r := cacheWrapper JSON.parse unreachable sample_key paging cold_shared in
   fst r = Throw (RedisError "connect ECONNREFUSED") /\
   fetched (snd r) = 0%nat /\
   reply (snd r) = fresh_reply /\
   memoryCache (snd r) = memoryCache_init /\
   redis (snd r) = Some ∅ /\
   statusCode (reply (snd (fetchAndCache JSON.parse unreachable sample_key paging cold_shared))) = 500)
  /\
  (let r := cacheWrapper JSON.parse prompt sample_key paging (seeded "{") in
   fst r = Throw (SyntaxError "{") /\
   fetched (snd r) = 0%nat /\
   reply (snd r) = fresh_reply /\
   memoryCache (snd r) = memoryCache_init /\
   redis (snd r) = redis (seeded "{") /\
   statusCode (reply (snd (fetchAndCache JSON.parse prompt sample_key paging (seeded "{")))) = 500).
Proof.
  split.
  - apply (proj1 (shared_tier_failure_propagates JSON.parse unreachable sample_key paging
                    cold_shared ∅ eq_refl eq_refl)).
    reflexivity.
  - apply (proj2 (shared_tier_failure_propagates JSON.parse prompt sample_key paging
                    (seeded "{") _ eq_refl eq_refl) "{").
    + reflexivity.
    + vm_compute. reflexivity.
    + reflexivity.
    + reflexivity.
Defined.

(** C1 as stated fails: with Redis configured and unreachable, a call on a
    cold cache does not fall back to the loader; it rejects, the loader
    never runs, no label is set and the local tier stays empty.  The same
    happens when the stored text is not JSON. *)
Lemma shared_tier_failure_not_absorbed :
  (let r := cacheWrapper JSON.parse unreachable sample_key paging cold_shared in
   fst r = Throw (RedisError "connect ECONNREFUSED") /\
   fetched (snd r) = 0%nat /\
   x_cache (snd r) = None /\
   LRUCache.peek (memoryCache (snd r)) sample_key (now (snd r)) = JUndefined)
  /\
  (let r := cacheWrapper JSON.parse prompt sample_key paging (seeded "{") in
   fst r = Throw (SyntaxError "{") /\
   fetched (snd r) = 0%nat /\
   x_cache (snd r) = None /\
   LRUCache.peek (memoryCache (snd r)) sample_key (now (snd r)) = JUndefined).
Proof. vm_compute. repeat split; reflexivity. Qed.

(** C3, amended.  The sequence [cacheWrapper] follows.  (1) If the local
    lookup returns a truthy value, that value is returned labelled
    HIT-MEMORY; the loader is not invoked, the shared tier is not
    queried (no time passes, the environment plays no part) and is left
    as it was.  (2) Otherwise, if the shared tier is configured, answers
    the read, and holds a non-empty text that deserializes, the parsed
    value is written into the local tier and returned labelled HIT-REDIS
    without invoking the loader.  (3) Otherwise, with the shared tier
    unconfigured or answering with nothing or the empty text, the loader
    is invoked; when it succeeds its result is written to the local tier
    and, unless the write is rejected, to the shared tier with an expiry
    of [CACHE_TTL] seconds, and returned labelled MISS. *)
Theorem read_through_sequence
  (JSON_parse : string -> option jsval) (env : Env) (k : string) (f : Loader) (s : State) :
  let r := cacheWrapper JSON_parse env k f s in
  let v := fst (local_lookup s k) in
  let c' := snd (local_lookup s k) in
  (truthy v = true ->
     fst r = Ok v /\ x_cache (snd r) = Some "HIT-MEMORY" /\
     fetched (snd r) = fetched s /\ redis (snd r) = redis s /\ now (snd r) = now s /\
     memoryCache (snd r) = c' /\
     forall env', cacheWrapper JSON_parse env' k f s = r)
  /\
  (forall db text parsed,
     truthy v = false ->
     redis s = Some db -> redis_get_fault env = None ->
     shared_lookup env db s k = Some text -> nonempty text = true ->
     JSON_parse text = Some parsed ->
     fst r = Ok parsed /\ x_cache (snd r) = Some "HIT-REDIS" /\
     fetched (snd r) = fetched s /\ redis (snd r) = redis s /\
     memoryCache (snd r) = LRUCache.set c' k parsed (now (snd r)))
  /\
  (forall data,
     truthy v = false ->
     redis s = None \/
     (exists db, redis s = Some db /\ redis_get_fault env = None /\
                 truthy_reply (shared_lookup env db s k) = false) ->
     f (fetched s) = Ok data ->
     fst r = Ok data /\ x_cache (snd r) = Some "MISS" /\
     fetched (snd r) = S (fetched s) /\
     memoryCache (snd r) = LRUCache.set c' k data (now (snd r)) /\
     redis (snd r) =
       match redis s with
       | Some db => Some (shared_store env db k data (now (snd r)))
       | None => None
       end).
Proof.
  cbv zeta. destruct (local_lookup s k) as [v c'] eqn:L. cbn [fst snd].
  split; [|split].
  - intros T. rewrite (call_memory_hit JSON_parse env k f s v c' L T). cbn [fst snd].
    rewrite x_cache_with_header. cbn. repeat split; try reflexivity.
    intros env'. apply call_memory_hit; assumption.
  - intros db text parsed T R F G N P.
    rewrite (call_redis_hit JSON_parse env k f s v c' db text parsed L T R F G N P).
    cbn [fst snd]. rewrite x_cache_with_header, R. cbn. repeat split; reflexivity.
  - intros data T [R|(db & R & F & G)] D.
    + rewrite (call_miss_local_only JSON_parse env k f s v c' L T R), D, R.
      cbn [fst snd]. rewrite x_cache_with_header. cbn. repeat split; reflexivity.
    + rewrite (call_miss_shared JSON_parse env k f s v c' db L T R F G), D, R.
      cbn [fst snd]. rewrite x_cache_with_header. cbn. repeat split; reflexivity.
Qed.

Lemma read_through_sequence_witness :
  (let s := warmed (JStr "cached") (Some ∅) in
   let r := cacheWrapper JSON.parse unreachable sample_key paging s in
   fst r = Ok (JStr "cached") /\ x_cache (snd r) = Some "HIT-MEMORY" /\
   fetched (snd r) = fetched s /\ redis (snd r) = redis s /\ now (snd r) = now s /\
   memoryCache (snd r) = snd (local_lookup s sample_key) /\
   cacheWrapper JSON.parse prompt sample_key paging s = r)
  /\
  (let s := seeded "[1]" in
   let r := cacheWrapper JSON.parse read_only sample_key paging s in
   fst r = Ok (JArr [JNum 1]) /\ x_cache (snd r) = Some "HIT-REDIS" /\
   fetched (snd r) = fetched s /\ redis (snd r) = redis s /\
   memoryCache (snd r) =
     LRUCache.set (snd (local_lookup s sample_key)) sample_key (JArr [JNum 1]) (now (snd r)))
  /\
  (let s := cold_shared in
   let r := cacheWrapper JSON.parse prompt sample_key counting s in
   fst r = Ok (JNum 0) /\ x_cache (snd r) = Some "MISS" /\
   fetched (snd r) = S (fetched s) /\
   memoryCache (snd r) =
     LRUCache.set (snd (local_lookup s sample_key)) sample_key (JNum 0) (now (snd r)) /\
   redis (snd r) = Some (shared_store prompt ∅ sample_key (JNum 0) (now (snd r)))).
Proof.
  split; [|split].
  - destruct (proj1 (read_through_sequence JSON.parse unreachable sample_key paging
                       (warmed (JStr "cached") (Some ∅))) eq_refl)
      as (A & B & C & D & E & F & G).
    exact (conj A (conj B (conj C (conj D (conj E (conj F (G prompt))))))).
  - apply (proj1 (proj2 (read_through_sequence JSON.parse read_only sample_key paging
                           (seeded "[1]")))
             (keyspace "[1]") "[1]").
    + reflexivity.
    + reflexivity.
    + reflexivity.
    + vm_compute. reflexivity.
    + reflexivity.
    + reflexivity.
  - apply (proj2 (proj2 (read_through_sequence JSON.parse prompt sample_key counting
                           cold_shared)) (JNum 0)).
    + reflexivity.
    + right. exists ∅. repeat split; reflexivity.
    + reflexivity.
Defined.

(** C3 as stated fails: the local tier holds the key (a live entry with
    the value 0), yet the call labels the response MISS, invokes the
    loader and returns the loader's value. *)
Lemma held_falsy_key_not_served :
  let s := warmed (JNum 0) None in
  let r := cacheWrapper JSON.parse prompt sample_key paging s in
  LRUCache.holds (memoryCache s) sample_key (JNum 0) (now s) /\
  x_cache (snd r) = Some "MISS" /\
  fetched (snd r) = 1%nat /\
  fst r = paging 0%nat.
Proof.
  cbv zeta. split.
  - eexists. split; [vm_compute; reflexivity|]. split; reflexivity.
  - vm_compute. repeat split; reflexivity.
Qed.

(** A call that invoked the loader is one that found nothing truthy in
    the local tier and nothing usable in the shared tier. *)
Lemma call_invoked_loader
  (JSON_parse : string -> option jsval) (env : Env) (k : string) (f : Loader) (s : State) :
  fetched (snd (cacheWrapper JSON_parse env k f s)) = S (fetched s) ->
  truthy (fst (local_lookup s k)) = false /\
  (redis s = None \/
   exists db, redis s = Some db /\ redis_get_fault env = None /\
              truthy_reply (shared_lookup env db s k) = false).
Proof.
  destruct (local_lookup s k) as [v c'] eqn:L. cbn [fst].
  destruct (truthy v) eqn:T.
  { rewrite (call_memory_hit JSON_parse env k f s v c' L T). cbn. lia. }
  intros H. split; [reflexivity|].
  destruct (redis s) as [db|] eqn:R; [right|left; reflexivity].
  exists db. split; [reflexivity|].
  destruct (redis_get_fault env) as [e|] eqn:F.
  { rewrite (call_redis_fault JSON_parse env k f s v c' db e L T R F) in H. cbn in H. lia. }
  split; [reflexivity|].
  destruct (shared_lookup env db s k) as [text|] eqn:G; [|reflexivity].
  cbn. destruct (nonempty text) eqn:N; [|reflexivity].
  destruct (JSON_parse text) as [parsed|] eqn:P.
  - rewrite (call_redis_hit JSON_parse env k f s v c' db text parsed L T R F G N P) in H.
    cbn in H. lia.
  - rewrite (call_redis_garbled JSON_parse env k f s v c' db text L T R F G N P) in H.
    cbn in H. lia.
Qed.

(** The state a successful MISS leaves behind holds the loader's value in
    the local tier, written at the instant the call ended. *)
Lemma call_miss_state
  (JSON_parse : string -> option jsval) (env : Env) (k : string) (f : Loader) (s : State)
  (data : jsval) :
  fetched (snd (cacheWrapper JSON_parse env k f s)) = S (fetched s) ->
  f (fetched s) = Ok data ->
  let r := cacheWrapper JSON_parse env k f s in
  fst r = Ok data /\
  x_cache (snd r) = Some "MISS" /\
  memoryCache (snd r) = LRUCache.set (snd (local_lookup s k)) k data (now (snd r)) /\
  (redis s = None -> redis (snd r) = None) /\
  (forall db, redis s = Some db ->
     redis (snd r) = Some (shared_store env db k data (now (snd r)))).
Proof.
  intros H D. cbv zeta.
  destruct (call_invoked_loader JSON_parse env k f s H) as (T & Hshared).
  destruct (local_lookup s k) as [v c'] eqn:L. cbn [fst snd] in *.
  destruct Hshared as [R|(db & R & F & G)].
  - rewrite (call_miss_local_only JSON_parse env k f s v c' L T R), D. cbn [fst snd].
    rewrite x_cache_with_header. cbn. repeat split; try reflexivity.
    intros db Hdb. congruence.
  - rewrite (call_miss_shared JSON_parse env k f s v c' db L T R F G), D. cbn [fst snd].
    rewrite x_cache_with_header. cbn. repeat split; try reflexivity.
    + intros Hn. congruence.
    + intros db' Hdb. replace db' with db by congruence. reflexivity.
Qed.

(** C4, amended.  Two calls in immediate succession, the second before the
    local TTL has elapsed: when the first call reaches the loader and the
    loader's first value is truthy, the second call returns that first
    value, served from the local tier with label HIT-MEMORY, and the
    loader has been invoked exactly once across the two calls. *)
Theorem second_call_served_from_memory
  (JSON_parse : string -> option jsval) (env1 env2 : Env) (k : string) (f : Loader)
  (s : State) (v : jsval) (d : N) :
  let r1 := cacheWrapper JSON_parse env1 k f s in
  let r2 := cacheWrapper JSON_parse env2 k f (later d (next_request (snd r1))) in
  fetched (snd r1) = S (fetched s) ->
  f (fetched s) = Ok v ->
  truthy v = true ->
  LRUCache.ttl (memoryCache s) = 0 \/ Z.of_N d <= LRUCache.ttl (memoryCache s) ->
  fst r1 = Ok v /\
  fst r2 = Ok v /\
  x_cache (snd r2) = Some "HIT-MEMORY" /\
  fetched (snd r2) = S (fetched s).
Proof.
  cbv zeta. intros H D T W.
  destruct (call_miss_state JSON_parse env1 k f s v H D) as (E1 & _ & C1 & _).
  split; [exact E1|].
  set (s1 := snd (cacheWrapper JSON_parse env1 k f s)) in *.
  assert (local_lookup (later d (next_request s1)) k = (v, memoryCache s1)) as L2.
  { unfold local_lookup, later, next_request. cbn [memoryCache now].
    rewrite C1. apply get_set_same; [apply truthy_defined; exact T|].
    unfold local_lookup. rewrite get_ttl. destruct W as [W|W]; [left; exact W|right; lia]. }
  rewrite (call_memory_hit JSON_parse env2 k f _ v (memoryCache s1) L2 T).
  cbn [fst snd]. rewrite x_cache_with_header. cbn. auto.
Qed.

Lemma second_call_served_from_memory_witness :
  let r1 := cacheWrapper JSON.parse read_only sample_key paging cold_shared in
  let r2 := cacheWrapper JSON.parse unreachable sample_key paging
              (later 1800000 (next_request (snd r1))) in
  fst r1 = paging 0%nat /\
  fst r2 = paging 0%nat /\
  x_cache (snd r2) = Some "HIT-MEMORY" /\
  fetched (snd r2) = 1%nat.
Proof.
  apply (second_call_served_from_memory JSON.parse read_only unreachable sample_key paging
           cold_shared _ 1800000).
  - reflexivity.
  - reflexivity.
  - reflexivity.
  - right. vm_compute. discriminate.
Defined.

(** C4 as stated fails: on a process without Redis, a loader returning 0
    and then 1 is invoked by both calls, and the second call returns 1. *)
Lemma falsy_first_value_fetched_twice :
  let r1 := cacheWrapper JSON.parse prompt sample_key counting cold in
  let r2 := cacheWrapper JSON.parse prompt sample_key counting (next_request (snd r1)) in
  fst r1 = Ok (JNum 0) /\
  fst r2 = Ok (JNum 1) /\
  x_cache (snd r2) = Some "MISS" /\
  fetched (snd r2) = 2%nat.
Proof. vm_compute. repeat split; reflexivity. Qed.

(** A call that finds nothing truthy in the local tier and is answered
    with nothing usable by the shared tier goes to the loader. *)
Lemma call_goes_to_loader
  (JSON_parse : string -> option jsval) (env : Env) (k : string) (f : Loader) (s : State) :
  truthy (fst (local_lookup s k)) = false ->
  redis s = None \/
  (exists db, redis s = Some db /\ redis_get_fault env = None /\
              truthy_reply (shared_lookup env db s k) = false) ->
  let r := cacheWrapper JSON_parse env k f s in
  fetched (snd r) = S (fetched s) /\ fst r = f (fetched s) /\
  x_cache (snd r) = Some "MISS".
Proof.
  intros T Hshared. cbv zeta.
  destruct (local_lookup s k) as [v c'] eqn:L. cbn [fst] in T.
  destruct Hshared as [R|(db & R & F & G)].
  - rewrite (call_miss_local_only JSON_parse env k f s v c' L T R).
    destruct (f (fetched s)); cbn [fst snd]; rewrite x_cache_with_header; auto.
  - rewrite (call_miss_shared JSON_parse env k f s v c' db L T R F G).
    destruct (f (fetched s)); cbn [fst snd]; rewrite x_cache_with_header; auto.
Qed.




(** C6, amended.  A key the local tier cannot serve and the shared tier
    holds as a non-empty text that deserializes to a truthy value: when
    the read is answered, the call returns that value labelled HIT-REDIS
    without invoking the loader, and the next call, made before the local
    TTL has elapsed, returns it labelled HIT-MEMORY. *)
Theorem shared_hit_promoted
  (JSON_parse : string -> option jsval) (env env2 : Env) (k : string) (f : Loader)
  (s : State) (db : gmap string Redis.item) (text : string) (v : jsval) (d : N) :
  let r1 := cacheWrapper JSON_parse env k f s in
  let r2 := cacheWrapper JSON_parse env2 k f (later d (next_request (snd r1))) in
  truthy (fst (local_lookup s k)) = false ->
  redis s = Some db -> redis_get_fault env = None ->
  shared_lookup env db s k = Some text -> nonempty text = true ->
  JSON_parse text = Some v -> truthy v = true ->
  LRUCache.ttl (memoryCache s) = 0 \/ Z.of_N d <= LRUCache.ttl (memoryCache s) ->
  fst r1 = Ok v /\ x_cache (snd r1) = Some "HIT-REDIS" /\ fetched (snd r1) = fetched s /\
  fst r2 = Ok v /\ x_cache (snd r2) = Some "HIT-MEMORY" /\ fetched (snd r2) = fetched s.
Proof.
  cbv zeta. intros T R F G N P Tv W.
  destruct (local_lookup s k) as [v0 c'] eqn:L. cbn [fst] in T.
  rewrite (call_redis_hit JSON_parse env k f s v0 c' db text v L T R F G N P).
  cbn [fst snd]. rewrite x_cache_with_header.
  split; [reflexivity|]. split; [reflexivity|]. split; [reflexivity|].
  set (t1 := now s + Z.of_N (redis_get_lag env)).
  set (s2 := later d (next_request _)).
  assert (local_lookup s2 k = (v, LRUCache.set c' k v t1)) as L2.
  { unfold local_lookup, s2, later, next_request. cbn [memoryCache now].
    apply get_set_same; [apply truthy_defined; exact Tv|].
    assert (LRUCache.ttl c' = LRUCache.ttl (memoryCache s)) as ->.
    { unfold local_lookup in L. pose proof (get_ttl (memoryCache s) k (now s)) as E.
      rewrite L in E. exact E. }
    destruct W as [W|W]; [left; exact W|right; lia]. }
  rewrite (call_memory_hit JSON_parse env2 k f s2 v _ L2 Tv).
  cbn [fst snd]. rewrite x_cache_with_header. auto.
Qed.

Lemma shared_hit_promoted_witness :
  let r1 := cacheWrapper JSON.parse read_only sample_key failing (seeded "[1]") in
  let r2 := cacheWrapper JSON.parse unreachable sample_key failing
              (later 60000 (next_request (snd r1))) in
  fst r1 = Ok (JArr [JNum 1]) /\ x_cache (snd r1) = Some "HIT-REDIS" /\
  fetched (snd r1) = 0%nat /\
  fst r2 = Ok (JArr [JNum 1]) /\ x_cache (snd r2) = Some "HIT-MEMORY" /\
  fetched (snd r2) = 0%nat.
Proof.
  apply (shared_hit_promoted JSON.parse read_only unreachable sample_key failing
           (seeded "[1]") (keyspace "[1]") "[1]"
           (JArr [JNum 1]) 60000).
  - reflexivity.
  - reflexivity.
  - reflexivity.
  - vm_compute. reflexivity.
  - reflexivity.
  - reflexivity.
  - reflexivity.
  - right. vm_compute. discriminate.
Defined.

(** C6 as stated fails: with only the shared tier holding the key, as
    the text of the number 0, the first call is labelled HIT-REDIS and
    so is the second; the promoted value never yields HIT-MEMORY. *)
Lemma falsy_shared_value_not_promoted :
  let s := seeded "0" in
  let r1 := cacheWrapper JSON.parse prompt sample_key paging s in
  let r2 := cacheWrapper JSON.parse prompt sample_key paging (next_request (snd r1)) in
  LRUCache.find sample_key (LRUCache.entries (memoryCache s)) = None /\
  fst r1 = Ok (JNum 0) /\ x_cache (snd r1) = Some "HIT-REDIS" /\
  fst r2 = Ok (JNum 0) /\ x_cache (snd r2) = Some "HIT-REDIS".
Proof. vm_compute. repeat split; reflexivity. Qed.

(** C7.  The shared-tier write after a successful load is fire and
    forget: in a call that invoked the loader and got [v] from it, the
    caller receives [v] whether the write is accepted or rejected; the
    label and the local tier are the same either way, and a rejected
    write leaves the shared tier as it was. *)
Theorem shared_write_fire_and_forget
  (JSON_parse : string -> option jsval) (k : string) (f : Loader) (s : State) (v : jsval)
  (get_lag : N) (get_fault : option exn) (load_lag : N) (set_fault : option exn) :
  let r := cacheWrapper JSON_parse (MkEnv get_lag get_fault load_lag set_fault) k f s in
  let accepted := cacheWrapper JSON_parse (MkEnv get_lag get_fault load_lag None) k f s in
  fetched (snd r) = S (fetched s) ->
  f (fetched s) = Ok v ->
  fst r = Ok v /\
  fst accepted = Ok v /\
  x_cache (snd r) = Some "MISS" /\
  reply (snd r) = reply (snd accepted) /\
  memoryCache (snd r) = memoryCache (snd accepted) /\
  (forall e, set_fault = Some e -> redis (snd r) = redis s).
Proof.
  cbv zeta. intros H D.
  destruct (call_invoked_loader JSON_parse _ k f s H) as (T & Hshared).
  destruct (local_lookup s k) as [v0 c'] eqn:L. cbn [fst] in T.
  destruct Hshared as [R|(db & R & F & G)].
  - rewrite !(call_miss_local_only JSON_parse _ k f s v0 c' L T R), D. cbn [fst snd].
    rewrite x_cache_with_header. cbn. repeat split; auto.
  - cbn [redis_get_fault] in F.
    rewrite (call_miss_shared JSON_parse (MkEnv get_lag get_fault load_lag set_fault)
               k f s v0 c' db L T R F G), D.
    rewrite (call_miss_shared JSON_parse (MkEnv get_lag get_fault load_lag None)
               k f s v0 c' db L T R F G), D.
    cbn [fst snd]. rewrite x_cache_with_header. cbn. repeat split; auto.
    intros e ->. unfold shared_store. cbn. symmetry. exact R.
Qed.

Lemma shared_write_fire_and_forget_witness :
  let r := cacheWrapper JSON.parse read_only sample_key paging cold_shared in
  let accepted := cacheWrapper JSON.parse (MkEnv 5 None 20 None) sample_key paging cold_shared in
  fst r = paging 0%nat /\
  fst accepted = paging 0%nat /\
  x_cache (snd r) = Some "MISS" /\
  reply (snd r) = reply (snd accepted) /\
  memoryCache (snd r) = memoryCache (snd accepted) /\
  redis (snd r) = redis cold_shared.
Proof.
  destruct (shared_write_fire_and_forget JSON.parse sample_key paging cold_shared
              (JObj [("currentPage", JNum 1); ("results", JArr [])])
              5 None 20 (Some (RedisError "READONLY")) eq_refl eq_refl)
    as (A & B & C & D & E & F).
  exact (conj A (conj B (conj C (conj D (conj E (F _ eq_refl)))))).
Defined.

(** C8, amended.  With [fastify.redis] absent the shared tier plays no part: it
    stays absent, nothing the environment decides about Redis and nothing
    about deserialization changes the call, and the call is a local
    lookup followed by the loader: a truthy local value is returned
    labelled HIT-MEMORY without invoking the loader; otherwise the
    response is labelled MISS, the loader is invoked once, its outcome is
    the call's outcome (so the only error there can be is the loader's),
    and a loaded value is written to the local tier. *)
Theorem unconfigured_shared_tier
  (JSON_parse : string -> option jsval) (env : Env) (k : string) (f : Loader) (s : State) :
  redis s = None ->
  let r := cacheWrapper JSON_parse env k f s in
  let v := fst (local_lookup s k) in
  redis (snd r) = None /\
  (forall parse' env', fetch_lag env' = fetch_lag env -> cacheWrapper parse' env' k f s = r) /\
  (truthy v = true ->
     fst r = Ok v /\ x_cache (snd r) = Some "HIT-MEMORY" /\ fetched (snd r) = fetched s) /\
  (truthy v = false ->
     fst r = f (fetched s) /\ x_cache (snd r) = Some "MISS" /\
     fetched (snd r) = S (fetched s) /\
     forall data, f (fetched s) = Ok data ->
       memoryCache (snd r) = LRUCache.set (snd (local_lookup s k)) k data (now (snd r))).
Proof.
  intros R. cbv zeta.
  destruct (local_lookup s k) as [v c'] eqn:L. cbn [fst snd].
  destruct (truthy v) eqn:T.
  - rewrite (call_memory_hit JSON_parse env k f s v c' L T). cbn [fst snd].
    rewrite x_cache_with_header. cbn [redis fetched].
    split; [exact R|]. split; [|split; [auto|discriminate]].
    intros parse' env' _. apply call_memory_hit; assumption.
  - rewrite (call_miss_local_only JSON_parse env k f s v c' L T R).
    split; [destruct (f (fetched s)); reflexivity|].
    split; [|split; [discriminate|]].
    + intros parse' env' E.
      rewrite (call_miss_local_only parse' env' k f s v c' L T R), E. reflexivity.
    + intros _. destruct (f (fetched s)) as [data|e]; cbn [fst snd];
        rewrite x_cache_with_header; cbn; repeat split; try reflexivity.
      * intros data' [= <-]. reflexivity.
      * intros data' [=].
Qed.

Lemma unconfigured_shared_tier_witness :
  (let r := cacheWrapper JSON.parse unreachable sample_key paging cold in
   redis (snd r) = None /\
   cacheWrapper (fun _ => None) (MkEnv 0 None 20 None) sample_key paging cold = r /\
   fst r = paging 0%nat /\ x_cache (snd r) = Some "MISS" /\ fetched (snd r) = 1%nat)
  /\
  (let r := cacheWrapper JSON.parse unreachable sample_key paging (warmed (JStr "cached") None) in
   fst r = Ok (JStr "cached") /\ x_cache (snd r) = Some "HIT-MEMORY" /\ fetched (snd r) = 0%nat).
Proof.
  split.
  - destruct (unconfigured_shared_tier JSON.parse unreachable sample_key paging cold eq_refl)
      as (A & B & _ & C).
    destruct (C eq_refl) as (C1 & C2 & C3 & _).
    exact (conj A (conj (B _ (MkEnv 0 None 20 None) eq_refl) (conj C1 (conj C2 C3)))).
  - destruct (unconfigured_shared_tier JSON.parse unreachable sample_key paging
                (warmed (JStr "cached") None) eq_refl) as (_ & _ & C & _).
    exact (C eq_refl).
Defined.

(** C8 as stated fails: without Redis, a key the local tier holds (a
    live entry with the value [false]) is a local hit, yet the response
    is labelled MISS and the loader is invoked. *)
Lemma local_hit_labelled_miss :
  let s := warmed (JBool false) None in
  let r := cacheWrapper JSON.parse unreachable sample_key counting s in
  redis s = None /\
  LRUCache.holds (memoryCache s) sample_key (JBool false) (now s) /\
  x_cache (snd r) = Some "MISS" /\
  x_cache (snd r) <> Some "HIT-MEMORY" /\
  fetched (snd r) = 1%nat /\
  fst r = Ok (JNum 0).
Proof.
  cbv zeta. split; [reflexivity|]. split.
  - eexists. split; [vm_compute; reflexivity|]. split; reflexivity.
  - vm_compute. split; [reflexivity|]. split; [discriminate|]. split; reflexivity.
Qed.

(** C10, amended.  The local-tier check tests the cached value and the
    shared-tier check tests the stored text.  (1) A live local entry with
    a falsy value is passed over; when the shared tier is unconfigured or
    answers with nothing or the empty text, the response is labelled MISS
    and the loader is invoked again although the key is cached.  (2) A
    present, unexpired empty text in the shared tier is passed over in the
    same way.  (3) A falsy value whose text is not empty is not passed
    over by the shared-tier check: it is returned labelled HIT-REDIS and
    the loader is not invoked. *)
Theorem falsy_entries_passed_over
  (JSON_parse : string -> option jsval) (env : Env) (k : string) (f : Loader) (s : State) :
  let r := cacheWrapper JSON_parse env k f s in
  (forall v,
     LRUCache.holds (memoryCache s) k v (now s) -> truthy v = false ->
     redis s = None \/
     (exists db, redis s = Some db /\ redis_get_fault env = None /\
                 truthy_reply (shared_lookup env db s k) = false) ->
     x_cache (snd r) = Some "MISS" /\ fetched (snd r) = S (fetched s) /\
     fst r = f (fetched s))
  /\
  (forall db,
     truthy (fst (local_lookup s k)) = false ->
     redis s = Some db -> redis_get_fault env = None ->
     shared_lookup env db s k = Some EmptyString ->
     x_cache (snd r) = Some "MISS" /\ fetched (snd r) = S (fetched s) /\
     fst r = f (fetched s))
  /\
  (forall v db text parsed,
     LRUCache.holds (memoryCache s) k v (now s) -> truthy v = false ->
     redis s = Some db -> redis_get_fault env = None ->
     shared_lookup env db s k = Some text -> nonempty text = true ->
     JSON_parse text = Some parsed ->
     fst r = Ok parsed /\ x_cache (snd r) = Some "HIT-REDIS" /\
     fetched (snd r) = fetched s).
Proof.
  cbv zeta. split; [|split].
  - intros v Hh T Hshared.
    assert (truthy (fst (local_lookup s k)) = false) as T'.
    { unfold local_lookup. fold (LRUCache.peek (memoryCache s) k (now s)).
      rewrite (holds_lookup _ _ _ _ Hh). exact T. }
    destruct (call_goes_to_loader JSON_parse env k f s T' Hshared) as (A & B & C). auto.
  - intros db T R F G.
    assert (redis s = None \/
            (exists db, redis s = Some db /\ redis_get_fault env = None /\
                        truthy_reply (shared_lookup env db s k) = false)) as Hshared.
    { right. exists db. rewrite G. auto. }
    destruct (call_goes_to_loader JSON_parse env k f s T Hshared) as (A & B & C). auto.
  - intros v db text parsed Hh T R F G N P.
    destruct (local_lookup s k) as [v0 c'] eqn:L.
    assert (truthy v0 = false) as T'.
    { pose proof (holds_lookup _ _ _ _ Hh) as E. unfold LRUCache.peek in E.
      unfold local_lookup in L. rewrite L in E. cbn in E. subst v0. exact T. }
    rewrite (call_redis_hit JSON_parse env k f s v0 c' db text parsed L T' R F G N P).
    cbn [fst snd]. rewrite x_cache_with_header. auto.
Qed.

Lemma warmed_holds (v : jsval) (shared : option (gmap string Redis.item)) :
  v <> JUndefined ->
  LRUCache.holds (memoryCache (warmed v shared)) sample_key v (now (warmed v shared)).
Proof.
  intros Hv. exists (LRUCache.Entry sample_key v 1000).
  unfold warmed. cbn [memoryCache now].
  rewrite set_defined by exact Hv.
  split; [|split]; reflexivity.
Qed.

Lemma falsy_entries_passed_over_witness :
  (let r := cacheWrapper JSON.parse prompt sample_key paging (warmed (JNum 0) None) in
   x_cache (snd r) = Some "MISS" /\ fetched (snd r) = 1%nat /\ fst r = paging 0%nat)
  /\
  (let r := cacheWrapper JSON.parse prompt sample_key paging (seeded EmptyString) in
   x_cache (snd r) = Some "MISS" /\ fetched (snd r) = 1%nat /\ fst r = paging 0%nat)
  /\
  (let r := cacheWrapper JSON.parse prompt sample_key paging
              (warmed (JNum 0) (Some (keyspace "0"))) in
   fst r = Ok (JNum 0) /\ x_cache (snd r) = Some "HIT-REDIS" /\ fetched (snd r) = 0%nat).
Proof.
  split; [|split].
  - apply (proj1 (falsy_entries_passed_over JSON.parse prompt sample_key paging
                    (warmed (JNum 0) None)) (JNum 0)).
    + apply warmed_holds. discriminate.
    + reflexivity.
    + left. reflexivity.
  - apply (proj1 (proj2 (falsy_entries_passed_over JSON.parse prompt sample_key paging
                           (seeded EmptyString))) (keyspace EmptyString)).
    + reflexivity.
    + reflexivity.
    + reflexivity.
    + vm_compute. reflexivity.
  - apply (proj2 (proj2 (falsy_entries_passed_over JSON.parse prompt sample_key paging
                           (warmed (JNum 0) (Some (keyspace "0")))))
             (JNum 0) (keyspace "0") "0" (JNum 0)).
    + apply warmed_holds. discriminate.
    + reflexivity.
    + reflexivity.
    + reflexivity.
    + vm_compute. reflexivity.
    + reflexivity.
    + reflexivity.
Defined.

(** C10 as stated fails: after a MISS that cached the falsy value 0 in
    both tiers, the key is cached with a falsy value, yet the next call
    does not invoke the loader and is not labelled MISS: the shared-tier
    check accepts the text of 0, and the response is labelled HIT-REDIS. *)
Lemma falsy_value_served_by_shared_tier :
  let s1 := snd (cacheWrapper JSON.parse prompt sample_key counting cold_shared) in
  let r2 := cacheWrapper JSON.parse prompt sample_key counting (next_request s1) in
  LRUCache.peek (memoryCache s1) sample_key (now s1) = JNum 0 /\
  option_map (fun db => Redis.GET db sample_key (now s1)) (redis s1) = Some (Some "0") /\
  fetched s1 = 1%nat /\
  fst r2 = Ok (JNum 0) /\
  x_cache (snd r2) = Some "HIT-REDIS" /\
  fetched (snd r2) = 1%nat.
Proof. vm_compute. repeat split; reflexivity. Qed.

(** * Further properties of the code *)

(** ** The local tier stays well formed *)

Lemma jsval_undefined_dec (v : jsval) : {v = JUndefined} + {v <> JUndefined}.
Proof. destruct v; (left; reflexivity) || (right; discriminate). Qed.

Section WellFormed.
Import LRUCache.

Lemma remove_keys_incl (k : string) (es : list entry) (x : string) :
  In x (List.map key (remove k es)) -> In x (List.map key es) /\ x <> k.
Proof.
  induction es as [|e es IH]; [intros []|].
  unfold remove in *. cbn. destruct (has_key k e) eqn:E; cbn.
  - intros H. destruct (IH H). split; [right|]; assumption.
  - intros [<-|H].
    + split; [left; reflexivity|]. unfold has_key in E.
      intros Hk. rewrite Hk, String.eqb_refl in E. discriminate.
    + destruct (IH H). split; [right|]; assumption.
Qed.

Lemma remove_nodup (k : string) (es : list entry) :
  NoDup (List.map key es) -> NoDup (List.map key (remove k es)).
Proof.
  induction es as [|e es IH]; [intros; constructor|].
  cbn. intros H. apply NoDup_cons in H as [Hn H].
  unfold remove in *. cbn. destruct (has_key k e); cbn; [auto|].
  apply NoDup_cons. split; [|auto].
  intros Hin. apply Hn. apply list_elem_of_In. apply list_elem_of_In in Hin.
  apply (remove_keys_incl k es). exact Hin.
Qed.

Lemma remove_length (k : string) (es : list entry) :
  (length (remove k es) <= length es)%nat.
Proof.
  induction es as [|e es IH]; [cbn; lia|].
  unfold remove in *. cbn. destruct (has_key k e); cbn; lia.
Qed.

Lemma remove_found_length (k : string) (es : list entry) (e : entry) :
  find k es = Some e -> (S (length (remove k es)) <= length es)%nat.
Proof.
  induction es as [|a es IH]; [discriminate|].
  unfold find, remove in *. cbn. destruct (has_key k a) eqn:E; cbn.
  - intros _. pose proof (remove_length k es) as H. unfold remove in H. lia.
  - intros H. specialize (IH H). lia.
Qed.

Lemma key_not_in_remove (k : string) (es : list entry) :
  ~ In k (List.map key (remove k es)).
Proof. intros H. apply remove_keys_incl in H as [_ H]. congruence. Qed.

Lemma find_none_not_in (k : string) (es : list entry) :
  find k es = None -> ~ In k (List.map key es).
Proof.
  intros F H. apply in_map_iff in H as (e & E & HIn).
  exact (find_none_key k es e F HIn E).
Qed.

Lemma removelast_keys_nodup (es : list entry) :
  NoDup (List.map key es) -> NoDup (List.map key (removelast es)).
Proof.
  induction es as [|a es IH]; [intros; constructor|].
  intros H. cbn in H. apply NoDup_cons in H as [Hn H].
  destruct es as [|b es]; [constructor|].
  cbn [removelast List.map]. apply NoDup_cons. split; [|apply IH; exact H].
  intros Hin. apply Hn. apply list_elem_of_In. apply list_elem_of_In in Hin.
  apply in_map_iff in Hin as (e & E & HIn).
  apply in_map_iff. exists e. split; [exact E|]. apply removelast_incl. exact HIn.
Qed.

Lemma removelast_length (es : list entry) :
  es <> [] -> S (length (removelast es)) = length es.
Proof.
  intros H. destruct (exists_last H) as (front & lru & ->).
  rewrite removelast_last, length_app. cbn. lia.
Qed.

Lemma nodup_cons_key (k : string) (e : entry) (es : list entry) :
  key e = k -> ~ In k (List.map key es) -> NoDup (List.map key es) ->
  NoDup (key e :: List.map key es).
Proof.
  intros E Hn H. apply NoDup_cons. split; [|exact H].
  rewrite E. intros Hin. apply Hn. apply list_elem_of_In. exact Hin.
Qed.

Lemma get_ok (c : t) (k : string) (now : Z) :
  cache_ok c -> cache_ok (snd (get c k now)).
Proof.
  intros (ND & Hpos & Hlen). unfold get.
  destruct (find k (entries c)) as [e|] eqn:F; [|repeat split; assumption].
  destruct (isStale c e now); cbn [snd]; unfold cache_ok, delete, with_entries; cbn.
  - split; [apply remove_nodup; exact ND|]. split; [exact Hpos|].
    pose proof (remove_length k (entries c)). lia.
  - split; [|split; [exact Hpos|]].
    + apply (nodup_cons_key k e); [eapply find_has_key; eauto|apply key_not_in_remove|].
      apply remove_nodup. exact ND.
    + pose proof (remove_found_length k (entries c) e F). lia.
Qed.

Lemma kept_ok (c : t) (k : string) :
  cache_ok c -> find k (entries c) = None ->
  let size := length (entries c) in
  let kept := if Nat.ltb 0 size && Nat.eqb size (max c)
              then removelast (entries c) else entries c in
  NoDup (List.map key kept) /\ ~ In k (List.map key kept) /\
  (S (length kept) <= max c)%nat.
Proof.
  intros (ND & Hpos & Hlen) F. cbv zeta.
  destruct (Nat.ltb_spec 0 (length (entries c))) as [Hne|Hemp]; cbn [andb].
  - destruct (Nat.eqb_spec (length (entries c)) (max c)) as [Hfull|Hroom].
    + split; [apply removelast_keys_nodup; exact ND|]. split.
      * apply find_none_not_in. apply find_removelast. exact F.
      * assert (entries c <> []) as Hnil by (intros E; rewrite E in Hne; cbn in Hne; lia).
        pose proof (removelast_length (entries c) Hnil). lia.
    + split; [exact ND|]. split; [apply find_none_not_in; exact F|lia].
  - split; [exact ND|]. split; [apply find_none_not_in; exact F|lia].
Qed.

Lemma set_ok (c : t) (k : string) (v : jsval) (now : Z) :
  cache_ok c -> cache_ok (set c k v now).
Proof.
  intros Hc. pose proof Hc as (ND & Hpos & Hlen).
  assert (cache_ok (delete c k)) as Hdel.
  { unfold cache_ok, delete, with_entries. cbn.
    split; [apply remove_nodup; exact ND|]. split; [exact Hpos|].
    pose proof (remove_length k (entries c)). lia. }
  destruct (jsval_undefined_dec v) as [->|Hv]; [exact Hdel|].
  rewrite set_defined by exact Hv.
  destruct (find k (entries c)) as [e|] eqn:F.
  - unfold cache_ok, with_entries. cbn. split; [|split; [exact Hpos|]].
    + apply (nodup_cons_key k (Entry k v now)); [reflexivity|apply key_not_in_remove|].
      apply remove_nodup. exact ND.
    + pose proof (remove_found_length k (entries c) e F). lia.
  - destruct (kept_ok c k Hc F) as (A & B & C). cbv zeta in *.
    unfold cache_ok, with_entries. cbn [entries max length List.map].
    split; [|split; [exact Hpos|exact C]].
    apply (nodup_cons_key k (Entry k v now)); [reflexivity|exact B|exact A].
Qed.

End WellFormed.

(** ** Everything a call can do *)

Ltac call_cases P env k f s :=
  let v := fresh "v" in
  let c' := fresh "c'" in
  let L := fresh "L" in
  let T := fresh "T" in
  let R := fresh "R" in
  let F := fresh "F" in
  let G := fresh "G" in
  let G' := fresh "G'" in
  let N := fresh "N" in
  let Pa := fresh "Pa" in
  let db := fresh "db" in
  let e := fresh "e" in
  let text := fresh "text" in
  let parsed := fresh "parsed" in
  destruct (local_lookup s k) as [v c'] eqn:L;
  destruct (truthy v) eqn:T;
  [ rewrite ?(call_memory_hit P env k f s v c' L T)
  | destruct (redis s) as [db|] eqn:R;
    [ destruct (redis_get_fault env) as [e|] eqn:F;
      [ rewrite ?(call_redis_fault P env k f s v c' db e L T R F)
      | destruct (shared_lookup env db s k) as [text|] eqn:G;
        [ destruct (nonempty text) eqn:N;
          [ destruct (P text) as [parsed|] eqn:Pa;
            [ rewrite ?(call_redis_hit P env k f s v c' db text parsed L T R F G N Pa)
            | rewrite ?(call_redis_garbled P env k f s v c' db text L T R F G N Pa) ]
          | assert (truthy_reply (shared_lookup env db s k) = false) as G'
              by (rewrite G; cbn; exact N);
            rewrite ?(call_miss_shared P env k f s v c' db L T R F G');
            destruct (f (fetched s)) ]
        | assert (truthy_reply (shared_lookup env db s k) = false) as G'
            by (rewrite G; reflexivity);
          rewrite ?(call_miss_shared P env k f s v c' db L T R F G');
          destruct (f (fetched s)) ] ]
    | rewrite ?(call_miss_local_only P env k f s v c' L T R);
      destruct (f (fetched s)) ] ].

(** What a call may change, whatever branch it takes. *)
Lemma call_effects
  (JSON_parse : string -> option jsval) (env : Env) (k : string) (f : Loader) (s : State) :
  let r := cacheWrapper JSON_parse env k f s in
  let c' := snd (local_lookup s k) in
  (memoryCache (snd r) = c' \/
   exists v, memoryCache (snd r) = LRUCache.set c' k v (now (snd r))) /\
  now s <= now (snd r) /\
  (fetched (snd r) = fetched s \/ fetched (snd r) = S (fetched s)) /\
  statusCode (reply (snd r)) = statusCode (reply s) /\
  sent (reply (snd r)) = sent (reply s) /\
  (headers (reply (snd r)) = headers (reply s) \/
   exists label, In label cache_labels /\
     headers (reply (snd r)) = <["X-Cache" := label]> (headers (reply s))) /\
  (redis s = None -> redis (snd r) = None) /\
  (forall db, redis s = Some db ->
     redis (snd r) = Some db \/
     exists text, redis (snd r) = Some (Redis.SET_EX db k text CACHE_TTL (now (snd r)))).
Proof.
  cbv zeta. call_cases JSON_parse env k f s; cbn [fst snd now memoryCache fetched reply redis
    with_header headers statusCode sent].
  all: repeat match goal with |- _ /\ _ => split end.
  all: try solve [left; reflexivity | reflexivity | lia | discriminate
                 | right; reflexivity
                 | right; eexists; reflexivity
                 | right; eexists; split; [cbn; tauto|reflexivity]
                 | intros db0 [= <-]; left; reflexivity
                 | intros; discriminate | intros; congruence ].
  all: try (intros db0 [= <-]; unfold shared_store; destruct (redis_set_fault env);
            [left; reflexivity|right; eexists; reflexivity]).
  all: right; eexists; split; [|reflexivity]; cbn; tauto.
Qed.

Lemma get_max_ttl (c : LRUCache.t) (k : string) (t : Z) :
  LRUCache.max (snd (LRUCache.get c k t)) = LRUCache.max c /\
  LRUCache.ttl (snd (LRUCache.get c k t)) = LRUCache.ttl c.
Proof. split; [apply get_max|apply get_ttl]. Qed.

Lemma set_max (c : LRUCache.t) (k : string) (v : jsval) (t : Z) :
  LRUCache.max (LRUCache.set c k v t) = LRUCache.max c.
Proof.
  unfold LRUCache.set.
  destruct v; try reflexivity; destruct (LRUCache.find k (LRUCache.entries c)); reflexivity.
Qed.

Lemma call_keeps_cache_ok
  (JSON_parse : string -> option jsval) (env : Env) (k : string) (f : Loader) (s : State) :
  let c := memoryCache (snd (cacheWrapper JSON_parse env k f s)) in
  cache_ok (memoryCache s) ->
  cache_ok c /\
  LRUCache.max c = LRUCache.max (memoryCache s) /\
  LRUCache.ttl c = LRUCache.ttl (memoryCache s).
Proof.
  cbv zeta. intros Hok.
  destruct (call_effects JSON_parse env k f s) as (Hc & _).
  unfold local_lookup in Hc.
  pose proof (get_ok (memoryCache s) k (now s) Hok) as Hget.
  destruct (get_max_ttl (memoryCache s) k (now s)) as (Hm & Ht).
  destruct Hc as [->|(v & ->)].
  - auto.
  - rewrite set_max, set_ttl. split; [apply set_ok; exact Hget|auto].
Qed.

(** X1.  However many requests are served, for whatever keys and with
    whatever loaders and Redis behaviour, the local tier keeps one entry
    per key and never holds more than [max] entries, and its [max] and
    [ttl] stay those it was built with. *)
Theorem local_tier_stays_bounded
  (JSON_parse : string -> option jsval) (calls : list (N * Env * string * Loader))
  (s : State) :
  cache_ok (memoryCache s) ->
  let c := memoryCache (serve JSON_parse calls s) in
  NoDup (List.map LRUCache.key (LRUCache.entries c)) /\
  (length (LRUCache.entries c) <= LRUCache.max (memoryCache s))%nat /\
  LRUCache.max c = LRUCache.max (memoryCache s) /\
  LRUCache.ttl c = LRUCache.ttl (memoryCache s).
Proof.
  cbv zeta. revert s.
  induction calls as [|[[[d env] k] f] calls IH]; intros s Hok.
  - cbn. destruct Hok as (A & B & C). auto.
  - cbn [serve].
    destruct (call_keeps_cache_ok JSON_parse env k f (later d (next_request s)) Hok)
      as (Hok' & Hm & Ht).
    destruct (IH _ Hok') as (A & B & C & D).
    cbn [later next_request memoryCache] in Hm, Ht.
    rewrite Hm in B, C. rewrite Ht in D. auto.
Qed.

Lemma memoryCache_init_ok : cache_ok memoryCache_init.
Proof. unfold cache_ok. cbn. split; [constructor|lia]. Qed.

Lemma local_tier_stays_bounded_witness :
  let c := memoryCache (serve JSON.parse
             [(0%N, prompt, sample_key, counting);
              (5%N, read_only, "tmdb:trending:{}", paging);
              (1800001%N, unreachable, sample_key, failing)] cold_shared) in
  NoDup (List.map LRUCache.key (LRUCache.entries c)) /\
  (length (LRUCache.entries c) <= 1000)%nat /\
  LRUCache.max c = 1000%nat /\
  LRUCache.ttl c = 1800000.
Proof.
  apply (local_tier_stays_bounded JSON.parse _ cold_shared memoryCache_init_ok).
Defined.

(** ** A call and the other keys *)

Section OtherKeys.
Import LRUCache.

Lemma find_remove_other (k k' : string) (es : list entry) :
  k' <> k -> find k' (remove k es) = find k' es.
Proof.
  intros Hne. induction es as [|e es IH]; [reflexivity|].
  unfold find, remove in *. cbn.
  destruct (has_key k e) eqn:E; cbn.
  - destruct (has_key k' e) eqn:E'; [|exact IH].
    unfold has_key in *. apply String.eqb_eq in E, E'. congruence.
  - destruct (has_key k' e); [reflexivity|exact IH].
Qed.

Lemma find_cons_other (k' : string) (e : entry) (es : list entry) :
  key e <> k' -> find k' (e :: es) = find k' es.
Proof.
  intros Hne. unfold find. cbn. unfold has_key at 1.
  destruct (String.eqb_spec k' (key e)); [congruence|reflexivity].
Qed.

Lemma find_removelast_other (k' : string) (es : list entry) :
  find k' (removelast es) = find k' es \/ find k' (removelast es) = None.
Proof.
  induction es as [|e es IH]; [left; reflexivity|].
  destruct es as [|e' es]; [right; reflexivity|].
  cbn [removelast]. unfold find in *. cbn [List.find].
  destruct (has_key k' e); [left; reflexivity|exact IH].
Qed.

Lemma get_other (c : t) (k k' : string) (now : Z) :
  k' <> k ->
  find k' (entries (snd (get c k now))) = find k' (entries c).
Proof.
  intros Hne. unfold get. destruct (find k (entries c)) as [e|] eqn:F; [|reflexivity].
  destruct (isStale c e now); cbn [snd entries with_entries delete].
  - apply find_remove_other. exact Hne.
  - rewrite find_cons_other; [apply find_remove_other; exact Hne|].
    rewrite (find_has_key _ _ _ F). congruence.
Qed.

Lemma get_length (c : t) (k : string) (now : Z) :
  (length (entries (snd (get c k now))) <= length (entries c))%nat.
Proof.
  unfold get. destruct (find k (entries c)) as [e|] eqn:F; [|cbn; lia].
  destruct (isStale c e now); cbn.
  - apply remove_length.
  - pose proof (remove_found_length k (entries c) e F). lia.
Qed.

(** [set] leaves what is stored under other keys alone, except that a new
    key arriving at a full cache may evict one of them. *)
Lemma set_other (c : t) (k k' : string) (v : jsval) (now : Z) :
  k' <> k ->
  find k' (entries (set c k v now)) = find k' (entries c) \/
  (find k' (entries (set c k v now)) = None /\ length (entries c) = max c).
Proof.
  intros Hne.
  destruct (jsval_undefined_dec v) as [->|Hv].
  { left. cbn [set delete entries with_entries]. apply find_remove_other. exact Hne. }
  rewrite set_defined by exact Hv.
  destruct (find k (entries c)) as [e|] eqn:F; cbn [entries with_entries].
  - left. rewrite find_cons_other by (cbn; congruence).
    apply find_remove_other. exact Hne.
  - cbv zeta. rewrite find_cons_other by (cbn; congruence).
    destruct (Nat.ltb 0 (length (entries c))); cbn [andb]; [|left; reflexivity].
    destruct (Nat.eqb_spec (length (entries c)) (max c)) as [Hfull|_]; [|left; reflexivity].
    destruct (find_removelast_other k' (entries c)) as [H|H]; [left; exact H|right; auto].
Qed.

End OtherKeys.

(** X2.  A call for key [k] leaves other keys alone.  In Redis every
    other key keeps its item.  In the local tier the entry of another key
    is never altered: it is as before, or it has been evicted, and
    eviction happens only if the local tier was full when the call
    started. *)
Theorem call_leaves_other_keys
  (JSON_parse : string -> option jsval) (env : Env) (k k' : string) (f : Loader) (s : State) :
  k' <> k ->
  let r := cacheWrapper JSON_parse env k f s in
  (forall db db', redis s = Some db -> redis (snd r) = Some db' -> db' !! k' = db !! k') /\
  (LRUCache.find k' (LRUCache.entries (memoryCache (snd r))) =
   LRUCache.find k' (LRUCache.entries (memoryCache s)) \/
   (LRUCache.find k' (LRUCache.entries (memoryCache (snd r))) = None /\
    (LRUCache.max (memoryCache s) <= length (LRUCache.entries (memoryCache s)))%nat)).
Proof.
  intros Hne. cbv zeta.
  destruct (call_effects JSON_parse env k f s) as (Hc & _ & _ & _ & _ & _ & _ & Hdb).
  split.
  - intros db db' R R'. destruct (Hdb db R) as [E|(text & E)]; rewrite E in R'.
    + congruence.
    + injection R' as <-. unfold Redis.SET_EX. apply lookup_insert_ne. congruence.
  - unfold local_lookup in Hc.
    pose proof (get_other (memoryCache s) k k' (now s) Hne) as Hget.
    pose proof (get_length (memoryCache s) k (now s)) as Hlen.
    pose proof (get_max (memoryCache s) k (now s)) as Hmax.
    destruct Hc as [->|(v & ->)]; [left; exact Hget|].
    destruct (set_other (snd (LRUCache.get (memoryCache s) k (now s))) k k' v
                (now (snd (cacheWrapper JSON_parse env k f s))) Hne) as [E|(E & Hfull)].
    + left. congruence.
    + right. split; [exact E|lia].
Qed.

Lemma call_leaves_other_keys_witness :
  let s := warmed (JStr "cached") (Some (keyspace "[1]")) in
  let r := cacheWrapper JSON.parse prompt "tmdb:trending:{}" paging s in
  option_map (fun db => db !! sample_key) (redis (snd r)) =
    Some (Some (Redis.Item "[1]" None)) /\
  LRUCache.find sample_key (LRUCache.entries (memoryCache (snd r))) =
    Some (LRUCache.Entry sample_key (JStr "cached") 1000).
Proof.
  cbv zeta.
  destruct (call_leaves_other_keys JSON.parse prompt "tmdb:trending:{}" sample_key paging
              (warmed (JStr "cached") (Some (keyspace "[1]"))))
    as (Hdb & Hlocal).
  - vm_compute. discriminate.
  - split.
    + destruct (redis (snd (cacheWrapper JSON.parse prompt "tmdb:trending:{}" paging
                  (warmed (JStr "cached") (Some (keyspace "[1]")))))) as [db'|] eqn:E;
        [|vm_compute in E; discriminate].
      cbn [option_map]. rewrite (Hdb (keyspace "[1]") db' eq_refl eq_refl).
      vm_compute. reflexivity.
    + destruct Hlocal as [E|(_ & Hfull)].
      * rewrite E. vm_compute. reflexivity.
      * vm_compute in Hfull. lia.
Defined.

(** ** Outcomes and labels *)

(** X3.  A call that returns a value has labelled the reply with exactly
    one of HIT-MEMORY, HIT-REDIS and MISS, whatever the reply carried
    before, and the label is MISS exactly when the loader was invoked. *)
Theorem success_is_labelled
  (JSON_parse : string -> option jsval) (env : Env) (k : string) (f : Loader) (s : State)
  (v : jsval) :
  let r := cacheWrapper JSON_parse env k f s in
  fst r = Ok v ->
  exists label,
    x_cache (snd r) = Some label /\ In label cache_labels /\
    (label = "MISS" <-> fetched (snd r) = S (fetched s)).
Proof.
  cbv zeta. call_cases JSON_parse env k f s; cbn [fst snd]; intros E; try discriminate.
  all: rewrite x_cache_with_header; eexists; split; [reflexivity|]; cbn [fetched].
  all: split; [cbn; tauto|].
  all: split; [try discriminate; reflexivity|intros H; try reflexivity; lia].
Qed.

Lemma success_is_labelled_witness :
  let r := cacheWrapper JSON.parse prompt sample_key paging (seeded "[1]") in
  exists label,
    x_cache (snd r) = Some label /\ In label cache_labels /\
    (label = "MISS" <-> fetched (snd r) = S (fetched (seeded "[1]"))).
Proof.
  apply (success_is_labelled JSON.parse prompt sample_key paging (seeded "[1]")
           (JArr [JNum 1])).
  reflexivity.
Defined.

(** X4.  There are three ways for a call to fail and no other: the Redis
    read was rejected, the stored text was refused by [JSON.parse], or
    the loader failed.  In the first two the loader has not run and the
    reply is untouched; in the third the reply is already labelled MISS.
    Without a Redis handle only the loader can make a call fail. *)
Theorem failure_has_three_causes
  (JSON_parse : string -> option jsval) (env : Env) (k : string) (f : Loader) (s : State)
  (e : exn) :
  let r := cacheWrapper JSON_parse env k f s in
  fst r = Throw e ->
  (redis s <> None /\ redis_get_fault env = Some e /\
   fetched (snd r) = fetched s /\ reply (snd r) = reply s)
  \/
  (exists db text,
     redis s = Some db /\ shared_lookup env db s k = Some text /\
     JSON_parse text = None /\ e = SyntaxError text /\
     fetched (snd r) = fetched s /\ reply (snd r) = reply s)
  \/
  (f (fetched s) = Throw e /\ fetched (snd r) = S (fetched s) /\
   x_cache (snd r) = Some "MISS").
Proof.
  cbv zeta. call_cases JSON_parse env k f s; cbn [fst snd]; intros E; try discriminate.
  - left. injection E as <-. cbn. split; [discriminate|]. tauto.
  - right. left. injection E as <-. exists db, text. cbn. tauto.
  - right. right. injection E as <-. rewrite x_cache_with_header. cbn. tauto.
  - right. right. injection E as <-. rewrite x_cache_with_header. cbn. tauto.
  - right. right. injection E as <-. rewrite x_cache_with_header. cbn. tauto.
Qed.

Lemma failure_has_three_causes_witness :
  let r := cacheWrapper JSON.parse prompt sample_key paging (seeded "{") in
  (redis (seeded "{") <> None /\ redis_get_fault prompt = Some (SyntaxError "{") /\
   fetched (snd r) = fetched (seeded "{") /\ reply (snd r) = reply (seeded "{"))
  \/
  (exists db text,
     redis (seeded "{") = Some db /\ shared_lookup prompt db (seeded "{") sample_key = Some text /\
     JSON.parse text = None /\ SyntaxError "{" = SyntaxError text /\
     fetched (snd r) = fetched (seeded "{") /\ reply (snd r) = reply (seeded "{"))
  \/
  (paging (fetched (seeded "{")) = Throw (SyntaxError "{") /\
   fetched (snd r) = S (fetched (seeded "{")) /\
   x_cache (snd r) = Some "MISS").
Proof.
  apply (failure_has_three_causes JSON.parse prompt sample_key paging (seeded "{")
           (SyntaxError "{")).
  reflexivity.
Defined.

(** X5.  What a call never does: it invokes the loader at most once, it
    never turns the clock back, it never sets the reply's status or
    sends its body, the only header it may write is X-Cache, and it
    neither creates nor drops the Redis handle. *)
Theorem call_footprint
  (JSON_parse : string -> option jsval) (env : Env) (k : string) (f : Loader) (s : State) :
  let r := cacheWrapper JSON_parse env k f s in
  (fetched s <= fetched (snd r) <= S (fetched s))%nat /\
  now s <= now (snd r) /\
  statusCode (reply (snd r)) = statusCode (reply s) /\
  sent (reply (snd r)) = sent (reply s) /\
  (forall name, name <> "X-Cache" ->
     headers (reply (snd r)) !! name = headers (reply s) !! name) /\
  (redis (snd r) = None <-> redis s = None).
Proof.
  cbv zeta.
  destruct (call_effects JSON_parse env k f s) as (_ & Hn & Hf & Hs & Hb & Hh & Hr & Hdb).
  split; [destruct Hf as [->| ->]; lia|].
  split; [exact Hn|]. split; [exact Hs|]. split; [exact Hb|]. split.
  - intros name Hne. destruct Hh as [->|(label & _ & ->)]; [reflexivity|].
    apply lookup_insert_ne. congruence.
  - split; [|exact Hr].
    destruct (redis s) as [db|] eqn:R; [|reflexivity].
    intros E. destruct (Hdb db eq_refl) as [E'|(text & E')]; congruence.
Qed.

Lemma call_footprint_witness :
  let s := MkState 0 memoryCache_init None
             (with_header "Content-Type" "application/json" fresh_reply) 0 in
  let r := cacheWrapper JSON.parse prompt sample_key paging s in
  headers (reply (snd r)) !! "Content-Type" = Some "application/json" /\
  (fetched s <= fetched (snd r) <= S (fetched s))%nat.
Proof.
  cbv zeta.
  destruct (call_footprint JSON.parse prompt sample_key paging
              (MkState 0 memoryCache_init None
                 (with_header "Content-Type" "application/json" fresh_reply) 0))
    as (A & _ & _ & _ & B & _).
  refine (conj _ A). rewrite B by discriminate. reflexivity.
Defined.

(** ** Expiry and sharing *)

Lemma stringify_nonempty (v : jsval) (text : string) :
  JSON.stringify v = Some text -> nonempty text = true.
Proof.
  destruct v; cbn; intros [= <-]; try reflexivity.
  - destruct b; reflexivity.
  - unfold JSON.number_to_string. destruct (Z.to_int n) as [u|u]; [destruct u|]; reflexivity.
Qed.

Lemma GET_after_SET_EX (db : gmap string Redis.item) (k text : string) (t0 t1 : Z) :
  Redis.GET (Redis.SET_EX db k text CACHE_TTL t0) k t1 =
  if t0 + 1000 * CACHE_TTL <? t1 then None else Some text.
Proof.
  unfold Redis.GET, Redis.SET_EX. rewrite lookup_insert_eq. reflexivity.
Qed.



(** X7.  What one process loads, another is served from Redis.  After a
    MISS whose write Redis accepted, any process reading the same
    keyspace before the item expires, and whose local tier cannot serve
    the key, returns the loaded value labelled HIT-REDIS without invoking
    its loader, provided the value is one that [JSON.parse] gives back
    from its [JSON.stringify] text. *)
Theorem loaded_value_is_shared
  (JSON_parse : string -> option jsval) (env1 env2 : Env) (k : string) (f g : Loader)
  (s other : State) (db : gmap string Redis.item) (v : jsval) (text : string) :
  let r1 := cacheWrapper JSON_parse env1 k f s in
  let r2 := cacheWrapper JSON_parse env2 k g other in
  redis s = Some db ->
  fetched (snd r1) = S (fetched s) ->
  f (fetched s) = Ok v ->
  redis_set_fault env1 = None ->
  JSON.stringify v = Some text ->
  JSON_parse text = Some v ->
  redis other = redis (snd r1) ->
  truthy (fst (local_lookup other k)) = false ->
  redis_get_fault env2 = None ->
  now other + Z.of_N (redis_get_lag env2) <= now (snd r1) + 1000 * CACHE_TTL ->
  fst r2 = Ok v /\
  x_cache (snd r2) = Some "HIT-REDIS" /\
  fetched (snd r2) = fetched other.
Proof.
  cbv zeta. intros R H D Hset Hs Hp Hshare T2 Hget Hlive.
  destruct (call_miss_state JSON_parse env1 k f s v H D) as (_ & _ & _ & _ & Rs).
  specialize (Rs db R). rewrite Rs in Hshare.
  unfold shared_store in Hshare. rewrite Hset, Hs in Hshare. cbn [Redis.toArg] in Hshare.
  set (t1 := now (snd (cacheWrapper JSON_parse env1 k f s))) in *.
  assert (shared_lookup env2 (Redis.SET_EX db k text CACHE_TTL t1) other k = Some text) as G.
  { unfold shared_lookup. rewrite GET_after_SET_EX.
    assert ((t1 + 1000 * CACHE_TTL <? now other + Z.of_N (redis_get_lag env2)) = false)
      as -> by (apply Z.ltb_ge; lia).
    reflexivity. }
  destruct (local_lookup other k) as [v0 c0] eqn:L. cbn [fst] in T2.
  rewrite (call_redis_hit JSON_parse env2 k g other v0 c0 _ text v L T2 Hshare Hget G
             (stringify_nonempty v text Hs) Hp).
  cbn [fst snd]. rewrite x_cache_with_header. auto.
Qed.

Lemma loaded_value_is_shared_witness :
  let r1 := cacheWrapper JSON.parse prompt sample_key paging cold_shared in
  let r2 := cacheWrapper JSON.parse prompt sample_key failing
              (other_process (redis (snd r1))) in
  fst r2 = Ok first_page /\
  x_cache (snd r2) = Some "HIT-REDIS" /\
  fetched (snd r2) = fetched (other_process (redis (snd r1))).
Proof.
  cbv zeta.
  apply (loaded_value_is_shared JSON.parse prompt prompt sample_key paging failing
           cold_shared
           (other_process (redis (snd (cacheWrapper JSON.parse prompt sample_key paging
                                         cold_shared))))
           ∅ first_page (interpolate (JSON.stringify first_page))).
  - reflexivity.
  - reflexivity.
  - reflexivity.
  - reflexivity.
  - vm_compute. reflexivity.
  - vm_compute. reflexivity.
  - reflexivity.
  - reflexivity.
  - reflexivity.
  - vm_compute. discriminate.
Defined.

(** ** [fetchAndCache] and [handleErrors] *)

(** X8.  [fetchAndCache] never rejects and always answers.  When
    [cacheWrapper] returns a value, that value is sent and the status is
    left as it was.  When [cacheWrapper] rejects, for whatever reason,
    the status is 500 and the body is the same fixed message, which says
    nothing about the error.  Either way the headers and both tiers are
    as [cacheWrapper] left them, so a 500 caused by the loader still
    carries [X-Cache: MISS]. *)
Theorem fetchAndCache_always_answers
  (JSON_parse : string -> option jsval) (env : Env) (k : string) (f : Loader) (s : State) :
  let c := cacheWrapper JSON_parse env k f s in
  let r := fetchAndCache JSON_parse env k f s in
  fst r = Ok tt /\
  (forall v, fst c = Ok v ->
     sent (reply (snd r)) = Some v /\ statusCode (reply (snd r)) = statusCode (reply s)) /\
  (forall e, fst c = Throw e ->
     sent (reply (snd r)) = Some error_message /\ statusCode (reply (snd r)) = 500) /\
  headers (reply (snd r)) = headers (reply (snd c)) /\
  memoryCache (snd r) = memoryCache (snd c) /\
  redis (snd r) = redis (snd c) /\
  fetched (snd r) = fetched (snd c).
Proof.
  cbv zeta.
  destruct (call_effects JSON_parse env k f s) as (_ & _ & _ & Hs & _).
  unfold fetchAndCache, try_catch, bind, handleErrors, bind, reply_status, reply_send.
  destruct (cacheWrapper JSON_parse env k f s) as [[v|e] s'] eqn:E; cbn in *.
  - split; [reflexivity|].
    split; [intros v' [= <-]; split; [reflexivity|exact Hs]|].
    split; [intros e [=]|]. tauto.
  - split; [reflexivity|].
    split; [intros v [=]|].
    split; [intros e' _; split; reflexivity|]. tauto.
Qed.

Lemma fetchAndCache_always_answers_witness :
  let r := fetchAndCache JSON.parse prompt sample_key failing cold in
  let r' := fetchAndCache JSON.parse prompt sample_key paging cold in
  (sent (reply (snd r)) = Some error_message /\ statusCode (reply (snd r)) = 500 /\
   headers (reply (snd r)) !! "X-Cache" = Some "MISS") /\
  (sent (reply (snd r')) = Some first_page /\ statusCode (reply (snd r')) = 200).
Proof.
  cbv zeta. split.
  - destruct (fetchAndCache_always_answers JSON.parse prompt sample_key failing cold)
      as (_ & _ & He & Hh & _).
    destruct (He _ eq_refl) as (A & B).
    refine (conj A (conj B _)). rewrite Hh. reflexivity.
  - destruct (fetchAndCache_always_answers JSON.parse prompt sample_key paging cold)
      as (_ & Hv & _).
    exact (Hv first_page eq_refl).
Defined.

(** ** The routes *)

Lemma prop_set_same (o : Obj.t) (k : string) (v : jsval) : prop (Obj.set k v o) k = v.
Proof.
  unfold prop. induction o as [|[k' v'] o IH]; cbn.
  - rewrite String.eqb_refl. reflexivity.
  - destruct (String.eqb_spec k k') as [->|Hne]; cbn.
    + rewrite String.eqb_refl. reflexivity.
    + destruct (String.eqb_spec k k'); [contradiction|exact IH].
Qed.

Lemma prop_set_other (o : Obj.t) (k k' : string) (v : jsval) :
  k <> k' -> prop (Obj.set k v o) k' = prop o k'.
Proof.
  intros Hne. unfold prop. induction o as [|[k0 v0] o IH]; cbn.
  - destruct (String.eqb_spec k' k); [congruence|reflexivity].
  - destruct (String.eqb_spec k k0) as [->|Hne0]; cbn.
    + destruct (String.eqb_spec k' k0); [congruence|reflexivity].
    + destruct (String.eqb_spec k' k0); [reflexivity|exact IH].
Qed.

Lemma append_cancel_l (a b c : string) : a +:+ b = a +:+ c -> b = c.
Proof. apply String.app_inj. Qed.

Section RouteProperties.
Variable JSON_parse : string -> option jsval.
Variable tmdbApi : string.
Variable PROVIDERS_MOVIES : list Provider.
Variable search : TMDB -> jsval -> jsval -> Loader.
Variable fetchMediaInfo : TMDB -> jsval -> jsval -> Loader.
Variable fetchTrending : TMDB -> jsval -> jsval -> jsval -> Loader.
Variable fetchEpisodeSources : TMDB -> jsval -> jsval -> Loader.

(** What a guarded route does with a request, given the parameter it
    insists on: shared by the info and the watch route. *)
Lemma guarded_route (required : jsval) (message : string) (serve_it : M unit) (s : State) :
  let route := if negb (truthy required) then bad_request message else serve_it in
  statusCode (reply s) = 200 ->
  (fst (serve_it s) = Ok tt /\
   sent (reply (snd (serve_it s))) <> None /\
   (statusCode (reply (snd (serve_it s))) = 200 \/
    statusCode (reply (snd (serve_it s))) = 500)) ->
  fst (route s) = Ok tt /\
  sent (reply (snd (route s))) <> None /\
  (statusCode (reply (snd (route s))) = 400 <-> truthy required = false) /\
  (truthy required = false ->
     sent (reply (snd (route s))) = Some (JObj [("message", JStr message)]) /\
     headers (reply (snd (route s))) = headers (reply s) /\
     memoryCache (snd (route s)) = memoryCache s /\
     redis (snd (route s)) = redis s /\
     fetched (snd (route s)) = fetched s /\
     now (snd (route s)) = now s).
Proof.
  cbv zeta. intros Hfresh (A & B & C).
  destruct (truthy required); cbn [negb].
  - split; [exact A|]. split; [exact B|]. split; [|discriminate].
    split; [|discriminate]. intros H. destruct C as [C|C]; rewrite C in H; discriminate.
  - cbn. split; [reflexivity|]. split; [discriminate|]. split; [tauto|].
    intros _. repeat split; reflexivity.
Qed.

Lemma fetchAndCache_status (env : Env) (k : string) (f : Loader) (s : State) :
  statusCode (reply s) = 200 ->
  let r := fetchAndCache JSON_parse env k f s in
  fst r = Ok tt /\
  sent (reply (snd r)) <> None /\
  (statusCode (reply (snd r)) = 200 \/ statusCode (reply (snd r)) = 500).
Proof.
  intros Hfresh. cbv zeta.
  destruct (call_effects JSON_parse env k f s) as (_ & _ & _ & Hs & _).
  unfold fetchAndCache, try_catch, bind, handleErrors, bind, reply_status, reply_send.
  destruct (cacheWrapper JSON_parse env k f s) as [[v|e] s']; cbn in *.
  - split; [reflexivity|]. split; [discriminate|left; congruence].
  - split; [reflexivity|]. split; [discriminate|right; reflexivity].
Qed.

(** X9.  The info route insists on [type].  On a fresh reply it always
    answers, and the status is 400 exactly when [type] is missing or
    otherwise falsy; then the body names the parameter, no header is
    written, the loader is not invoked and neither tier nor the clock is
    touched. *)
Theorem info_route_requires_type (env : Env) (request : Request) (s : State) :
  let r := info_route JSON_parse tmdbApi PROVIDERS_MOVIES fetchMediaInfo env request s in
  let type := prop (query request) "type" in
  statusCode (reply s) = 200 ->
  fst r = Ok tt /\
  sent (reply (snd r)) <> None /\
  (statusCode (reply (snd r)) = 400 <-> truthy type = false) /\
  (truthy type = false ->
     sent (reply (snd r)) =
       Some (JObj [("message", JStr "The 'type' query parameter is required")]) /\
     headers (reply (snd r)) = headers (reply s) /\
     memoryCache (snd r) = memoryCache s /\
     redis (snd r) = redis s /\
     fetched (snd r) = fetched s /\
     now (snd r) = now s).
Proof.
  cbv zeta. intros Hfresh. unfold info_route.
  apply (guarded_route (prop (query request) "type")); [exact Hfresh|].
  apply fetchAndCache_status. exact Hfresh.
Qed.

(** X10.  The watch route insists on [id] in the same way: on a fresh
    reply the status is 400 exactly when [id] is missing or otherwise
    falsy, and then nothing but the reply's status and body changes. *)
Theorem watch_route_requires_id (env : Env) (request : Request) (s : State) :
  let r := watch_route JSON_parse tmdbApi PROVIDERS_MOVIES fetchEpisodeSources env request s in
  let id := prop (query request) "id" in
  statusCode (reply s) = 200 ->
  fst r = Ok tt /\
  sent (reply (snd r)) <> None /\
  (statusCode (reply (snd r)) = 400 <-> truthy id = false) /\
  (truthy id = false ->
     sent (reply (snd r)) =
       Some (JObj [("message", JStr "The 'id' query parameter is required")]) /\
     headers (reply (snd r)) = headers (reply s) /\
     memoryCache (snd r) = memoryCache s /\
     redis (snd r) = redis s /\
     fetched (snd r) = fetched s /\
     now (snd r) = now s).
Proof.
  cbv zeta. intros Hfresh. unfold watch_route.
  apply (guarded_route (prop (query request) "id")); [exact Hfresh|].
  apply fetchAndCache_status. exact Hfresh.
Qed.

(** X11.  The trending route normalises its parameters before it builds
    the cache key and calls upstream.  A [timePeriod] that is not
    exactly day or week, or is missing, is treated as day; a missing
    [type] is all; a missing [page] is the number 1.  Requests that
    differ only in this way run identically: same key, same loader. *)
Theorem trending_route_normalises (env : Env) (request : Request) :
  let route := trending_route JSON_parse tmdbApi fetchTrending env in
  (has VALID_TIME_PERIODS (prop (query request) "timePeriod") = false ->
   route request = route (with_query "timePeriod" (JStr "day") request)) /\
  (prop (query request) "type" = JUndefined ->
   route request = route (with_query "type" (JStr "all") request)) /\
  (prop (query request) "page" = JUndefined ->
   route request = route (with_query "page" (JNum 1) request)).
Proof.
  cbv zeta. unfold trending_route, with_query. cbn [query].
  split; [|split]; intros H.
  - rewrite prop_set_same, !prop_set_other by discriminate.
    assert ((if has VALID_TIME_PERIODS
                  (or_default (prop (query request) "timePeriod") (JStr "day"))
             then or_default (prop (query request) "timePeriod") (JStr "day")
             else JStr "day") = JStr "day") as ->.
    { destruct (prop (query request) "timePeriod"); cbn in *; try reflexivity.
      rewrite H. reflexivity. }
    reflexivity.
  - rewrite prop_set_same, !prop_set_other by discriminate. rewrite H. reflexivity.
  - rewrite prop_set_same, !prop_set_other by discriminate. rewrite H. reflexivity.
Qed.

End RouteProperties.

Lemma info_route_requires_type_witness :
  let r := info_route JSON.parse "key" [] echo2 prompt info_without_type cold in
  let r' := info_route JSON.parse "key" [] echo2 prompt info_movie cold in
  statusCode (reply (snd r)) = 400 /\
  sent (reply (snd r)) =
    Some (JObj [("message", JStr "The 'type' query parameter is required")]) /\
  fetched (snd r) = 0%nat /\
  statusCode (reply (snd r')) <> 400.
Proof.
  cbv zeta.
  destruct (info_route_requires_type JSON.parse "key" [] echo2 prompt info_without_type cold eq_refl)
    as (_ & _ & Hs & Hm).
  destruct (Hm eq_refl) as (A & _ & _ & _ & B & _).
  destruct (info_route_requires_type JSON.parse "key" [] echo2 prompt info_movie cold eq_refl) as (_ & _ & Hs' & _).
  refine (conj (proj2 Hs eq_refl) (conj A (conj B _))).
  intros H. apply Hs' in H. discriminate.
Defined.

Lemma watch_route_requires_id_witness :
  let r := watch_route JSON.parse "key" [] echo2 prompt watch_without_id cold in
  statusCode (reply (snd r)) = 400 /\
  sent (reply (snd r)) =
    Some (JObj [("message", JStr "The 'id' query parameter is required")]) /\
  fetched (snd r) = 0%nat.
Proof.
  cbv zeta.
  destruct (watch_route_requires_id JSON.parse "key" [] echo2 prompt watch_without_id cold eq_refl)
    as (_ & _ & Hs & Hm).
  destruct (Hm eq_refl) as (A & _ & _ & _ & B & _).
  exact (conj (proj2 Hs eq_refl) (conj A B)).
Defined.

Lemma trending_route_normalises_witness :
  trending_route JSON.parse "key" echo3 prompt trending_month =
  trending_route JSON.parse "key" echo3 prompt
    (with_query "page" (JNum 1)
       (with_query "type" (JStr "all")
          (with_query "timePeriod" (JStr "day") trending_month))).
Proof.
  etransitivity;
    [apply (proj1 (trending_route_normalises JSON.parse "key" echo3 prompt trending_month)); reflexivity|].
  etransitivity;
    [apply (proj1 (proj2 (trending_route_normalises JSON.parse "key" echo3 prompt
                            (with_query "timePeriod" (JStr "day") trending_month))));
     reflexivity|].
  apply (proj2 (proj2 (trending_route_normalises JSON.parse "key" echo3 prompt
                         (with_query "type" (JStr "all")
                            (with_query "timePeriod" (JStr "day") trending_month))))).
  reflexivity.
Defined.

(** ** Cache keys do not collide *)

Lemma append_cons (x : ascii) (a b : string) : String x a +:+ b = String x (a +:+ b).
Proof. reflexivity. Qed.

Lemma append_assoc_s (a b c : string) : (a +:+ b) +:+ c = a +:+ (b +:+ c).
Proof.
  induction a as [|x a IH]; [reflexivity|].
  rewrite !append_cons. f_equal. exact IH.
Qed.

(** Reading one escaped code unit back. *)
Lemma string_body_escape (c : ascii) (n : nat) (r : string) :
  JSON.string_body (S n) (JSON.escape c +:+ r) =
  match JSON.string_body n r with
  | Some (b, rest) => Some (String c b, rest)
  | None => None
  end.
Proof. destruct c as [[] [] [] [] [] [] [] []]; reflexivity. Qed.

(** Reading an escaped string back, up to its closing quote. *)
Lemma string_body_escape_all (s : string) (n : nat) (r : string) :
  (String.length s < n)%nat ->
  JSON.string_body n (JSON.escape_all s +:+ JSON.dquote +:+ r) = Some (s, r).
Proof.
  revert n. induction s as [|c s IH]; intros n Hn.
  - destruct n as [|n]; [cbn in Hn; lia|]. reflexivity.
  - destruct n as [|n]; [cbn in Hn; lia|].
    cbn [JSON.escape_all]. rewrite append_assoc_s, string_body_escape.
    rewrite IH by (cbn in Hn; lia). reflexivity.
Qed.

(** [JSON.stringify] quotes strings so that they can be told apart,
    whatever follows. *)
Lemma quote_inj (a b r1 r2 : string) :
  JSON.quote a +:+ r1 = JSON.quote b +:+ r2 -> a = b /\ r1 = r2.
Proof.
  unfold JSON.quote. rewrite !append_assoc_s.
  intros H. apply String.app_inj in H.
  pose proof (string_body_escape_all a (S (String.length a + String.length b)) r1) as Ha.
  pose proof (string_body_escape_all b (S (String.length a + String.length b)) r2) as Hb.
  rewrite H in Ha. rewrite Hb in Ha by lia.
  assert (Some (b, r2) = Some (a, r1)) as [= -> ->] by (apply Ha; lia).
  auto.
Qed.

Section Rendering.
Context {A : Type}.

Lemma indexed_named (l : list (string * A)) :
  Forall (fun k => JSON.array_index k = None) (List.map fst l) ->
  JSON.indexed l = [] /\ JSON.named l = l.
Proof.
  induction l as [|[k v] l IH]; [split; reflexivity|].
  cbn [List.map fst]. intros H. apply Forall_cons in H as [Hk H].
  destruct (IH H) as (I & N). unfold JSON.named in *. cbn. rewrite Hk, I, N.
  split; reflexivity.
Qed.

Lemma own_properties_named (l : list (string * A)) :
  Forall (fun k => JSON.array_index k = None) (List.map fst l) ->
  JSON.own_properties l = l.
Proof.
  intros H. unfold JSON.own_properties. destruct (indexed_named l H) as (-> & ->).
  reflexivity.
Qed.
End Rendering.

Lemma string_bag_members (ks vs : list string) :
  Forall (fun k => JSON.array_index k = None) ks ->
  length vs = length ks ->
  JSON.members (List.map (fun kv => (fst kv, JSON.stringify (snd kv))) (string_bag ks vs))
  = List.map member_text (combine ks vs).
Proof.
  intros Hk Hl. unfold JSON.members.
  rewrite own_properties_named.
  - unfold string_bag. clear Hk. revert vs Hl.
    induction ks as [|k ks IH]; intros [|v vs] Hl; try discriminate; [reflexivity|].
    cbn. rewrite IH by (cbn in Hl; lia). reflexivity.
  - unfold string_bag. revert vs Hl.
    induction ks as [|k ks IH]; intros [|v vs] Hl; try discriminate; [constructor|].
    apply Forall_cons in Hk as [Hk Hks]. cbn. apply Forall_cons. split; [exact Hk|].
    apply IH; [exact Hks|cbn in Hl; lia].
Qed.

Lemma member_text_app (k v r : string) :
  member_text (k, v) +:+ r = JSON.quote k +:+ ":" +:+ JSON.quote v +:+ r.
Proof. unfold member_text. cbn [fst snd]. rewrite !append_assoc_s. reflexivity. Qed.

Lemma join_cons2 (sep x y : string) (l : list string) :
  JSON.join sep (x :: y :: l) = x +:+ sep +:+ JSON.join sep (y :: l).
Proof. reflexivity. Qed.

Lemma join_members_inj (ks vs ws : list string) (r1 r2 : string) :
  length vs = length ks -> length ws = length ks ->
  JSON.join "," (List.map member_text (combine ks vs)) +:+ "}" +:+ r1 =
  JSON.join "," (List.map member_text (combine ks ws)) +:+ "}" +:+ r2 ->
  vs = ws.
Proof.
  revert vs ws r1 r2.
  induction ks as [|k ks IH]; intros [|v vs] [|w ws] r1 r2 Hv Hw; try discriminate.
  - reflexivity.
  - destruct ks as [|k2 ks].
    + destruct vs; [|discriminate]. destruct ws; [|discriminate].
      cbn [combine List.map JSON.join].
      rewrite (member_text_app k v), (member_text_app k w). intros H.
      do 2 apply append_cancel_l in H.
      apply quote_inj in H as [-> _]. reflexivity.
    + destruct vs as [|v2 vs]; [discriminate|]. destruct ws as [|w2 ws]; [discriminate|].
      specialize (IH (v2 :: vs) (w2 :: ws) r1 r2).
      cbn [combine List.map] in *.
      rewrite !join_cons2, !append_assoc_s.
      rewrite (member_text_app k v), (member_text_app k w). intros H.
      do 2 apply append_cancel_l in H.
      apply quote_inj in H as [-> H].
      apply append_cancel_l in H.
      f_equal. apply IH; [cbn in *; lia|cbn in *; lia|]. exact H.
Qed.

Lemma string_bag_key_inj (route : string) (ks vs ws : list string) :
  Forall (fun k => JSON.array_index k = None) ks ->
  length vs = length ks -> length ws = length ks ->
  getCacheKey route (string_bag ks vs) = getCacheKey route (string_bag ks ws) ->
  vs = ws.
Proof.
  intros Hk Hv Hw. unfold getCacheKey. cbn [JSON.stringify interpolate].
  rewrite !string_bag_members by assumption.
  intros H. do 4 apply append_cancel_l in H.
  apply (join_members_inj ks vs ws EmptyString EmptyString Hv Hw).
  exact H.
Qed.

(** X12.  Cache keys of one route do not collide.  Two parameter bags
    with the same property names (none of them an array index) and
    string values get the same key exactly when they hold the same
    values: no request of this kind is ever answered from the cache
    entry of a different one.  Quotes, backslashes, commas and braces
    inside the values cannot forge another bag's key. *)
Theorem getCacheKey_no_collision (route : string) (ks vs ws : list string) :
  Forall (fun k => JSON.array_index k = None) ks ->
  length vs = length ks -> length ws = length ks ->
  (getCacheKey route (string_bag ks vs) = getCacheKey route (string_bag ks ws) <-> vs = ws).
Proof.
  intros Hk Hv Hw. split.
  - apply string_bag_key_inj; assumption.
  - intros ->. reflexivity.
Qed.

Lemma getCacheKey_no_collision_witness :
  getCacheKey "info" (string_bag ["id"; "type"; "provider"] ["550"; "movie"; "flixhq"]) <>
  getCacheKey "info" (string_bag ["id"; "type"; "provider"] ["550"; "movie,"; "flixhq"]).
Proof.
  intros H.
  apply (getCacheKey_no_collision "info" ["id"; "type"; "provider"]
           ["550"; "movie"; "flixhq"] ["550"; "movie,"; "flixhq"]) in H.
  - discriminate.
  - repeat (apply Forall_cons; split; [reflexivity|]). apply Forall_nil_2.
  - reflexivity.
  - reflexivity.
Defined.

(** ** Providers and letter case *)

Lemma toLowerCase_nonempty (p : string) : nonempty (toLowerCase p) = nonempty p.
Proof. destruct p; reflexivity. Qed.

(** X13.  Provider names are matched without regard to letter case, cache
    keys are not.  Two info requests whose [provider] differs only in
    case run the same loader against the same provider, yet are cached
    under different keys. *)
Theorem provider_case_splits_cache
  (tmdbApi : string) (PROVIDERS_MOVIES : list Provider) (method : TMDB -> Loader)
  (id type p1 p2 : string) :
  toLowerCase p1 = toLowerCase p2 ->
  p1 <> p2 ->
  createTMDB tmdbApi PROVIDERS_MOVIES (JStr p1) = createTMDB tmdbApi PROVIDERS_MOVIES (JStr p2) /\
  with_tmdb tmdbApi PROVIDERS_MOVIES (JStr p1) method =
  with_tmdb tmdbApi PROVIDERS_MOVIES (JStr p2) method /\
  getCacheKey "info"
    (Obj.literal [("id", JStr id); ("type", JStr type); ("provider", JStr p1)]) <>
  getCacheKey "info"
    (Obj.literal [("id", JStr id); ("type", JStr type); ("provider", JStr p2)]).
Proof.
  intros Hlow Hne.
  assert (createTMDB tmdbApi PROVIDERS_MOVIES (JStr p1) =
          createTMDB tmdbApi PROVIDERS_MOVIES (JStr p2)) as Hc.
  { unfold createTMDB, possibleProvider. cbn [truthy].
    rewrite <- (toLowerCase_nonempty p1), <- (toLowerCase_nonempty p2), Hlow.
    reflexivity. }
  split; [exact Hc|]. split.
  - unfold with_tmdb. rewrite Hc. reflexivity.
  - intros H.
    apply (string_bag_key_inj "info" ["id"; "type"; "provider"] [id; type; p1] [id; type; p2])
      in H; [congruence| |reflexivity|reflexivity].
    repeat (apply Forall_cons; split; [reflexivity|]). apply Forall_nil_2.
Qed.

Lemma provider_case_splits_cache_witness :
  createTMDB "key" [MkProvider "FlixHQ"] (JStr "flixhq") = Ok (MkTMDB "key" (Some (MkProvider "FlixHQ"))) /\
  createTMDB "key" [MkProvider "FlixHQ"] (JStr "FLIXHQ") = Ok (MkTMDB "key" (Some (MkProvider "FlixHQ"))) /\
  getCacheKey "info"
    (Obj.literal [("id", JStr "550"); ("type", JStr "movie"); ("provider", JStr "flixhq")]) <>
  getCacheKey "info"
    (Obj.literal [("id", JStr "550"); ("type", JStr "movie"); ("provider", JStr "FLIXHQ")]).
Proof.
  destruct (provider_case_splits_cache "key" [MkProvider "FlixHQ"] (fun _ => failing)
              "550" "movie" "flixhq" "FLIXHQ" eq_refl) as (A & _ & C).
  - discriminate.
  - refine (conj _ (conj _ C)).
    + reflexivity.
    + rewrite <- A. reflexivity.
Defined.

Lemma call_loader_failure
  (JSON_parse : string -> option jsval) (env : Env) (k : string) (f : Loader) (s : State)
  (e : exn) :
  truthy (fst (local_lookup s k)) = false ->
  redis s = None \/
  (exists db, redis s = Some db /\ redis_get_fault env = None /\
              truthy_reply (shared_lookup env db s k) = false) ->
  f (fetched s) = Throw e ->
  let r := fetchAndCache JSON_parse env k f s in
  fst r = Ok tt /\
  statusCode (reply (snd r)) = 500 /\
  sent (reply (snd r)) = Some error_message /\
  fetched (snd r) = S (fetched s) /\
  memoryCache (snd r) = snd (local_lookup s k) /\
  redis (snd r) = redis s.
Proof.
  intros T Hshared D. cbv zeta.
  unfold fetchAndCache, try_catch, bind, handleErrors, bind, reply_status, reply_send.
  destruct (local_lookup s k) as [v c'] eqn:L. cbn [fst snd] in *.
  destruct Hshared as [R|(db & R & F & G)].
  - rewrite (call_miss_local_only JSON_parse env k f s v c' L T R), D, R. cbn. tauto.
  - rewrite (call_miss_shared JSON_parse env k f s v c' db L T R F G), D, R. cbn. tauto.
Qed.

(** X14.  A [provider] that is truthy but not a string (a parameter given
    twice arrives as an array) breaks [createTMDB] as soon as there is a
    provider to compare it with: the loader fails with a TypeError before
    any upstream call.  An info request carrying it, when neither tier
    can serve its key, is answered 500; the local tier gets no entry and
    Redis is not written. *)
Theorem non_string_provider_fails
  (JSON_parse : string -> option jsval) (tmdbApi : string)
  (first : Provider) (others : list Provider)
  (fetchMediaInfo : TMDB -> jsval -> jsval -> Loader)
  (env : Env) (request : Request) (s : State) :
  let provider_ := prop (query request) "provider" in
  let key := getCacheKey "info"
               (Obj.literal [("id", prop (params request) "id");
                             ("type", prop (query request) "type");
                             ("provider", provider_)]) in
  let r := info_route JSON_parse tmdbApi (first :: others) fetchMediaInfo env request s in
  truthy provider_ = true ->
  (forall p, provider_ <> JStr p) ->
  (forall method n,
     with_tmdb tmdbApi (first :: others) provider_ method n =
     Throw (TypeError "provider.toLowerCase is not a function")) /\
  (truthy (prop (query request) "type") = true ->
   truthy (fst (local_lookup s key)) = false ->
   redis s = None \/
   (exists db, redis s = Some db /\ redis_get_fault env = None /\
               truthy_reply (shared_lookup env db s key) = false) ->
   statusCode (reply (snd r)) = 500 /\
   sent (reply (snd r)) = Some error_message /\
   memoryCache (snd r) = snd (local_lookup s key) /\
   redis (snd r) = redis s).
Proof.
  cbv zeta. intros Ht Hns.
  assert (forall method n,
            with_tmdb tmdbApi (first :: others) (prop (query request) "provider") method n =
            Throw (TypeError "provider.toLowerCase is not a function")) as Hthrow.
  { intros method n. unfold with_tmdb, createTMDB. rewrite Ht.
    destruct (prop (query request) "provider") as [| | | |p| |]; try reflexivity.
    exfalso. exact (Hns p eq_refl). }
  split; [exact Hthrow|].
  intros Htype T Hshared. unfold info_route. rewrite Htype. cbn [negb].
  destruct (call_loader_failure JSON_parse env _
              (with_tmdb tmdbApi (first :: others) (prop (query request) "provider")
                 (fun tmdb => fetchMediaInfo tmdb (prop (params request) "id")
                                (prop (query request) "type")))
              s _ T Hshared (Hthrow _ _))
    as (_ & A & B & _ & C & D).
  auto.
Qed.

Lemma non_string_provider_fails_witness :
  let r := info_route JSON.parse "key" [MkProvider "FlixHQ"] echo2 prompt
             info_two_providers cold in
  statusCode (reply (snd r)) = 500 /\
  sent (reply (snd r)) = Some error_message /\
  memoryCache (snd r) = memoryCache cold /\
  redis (snd r) = None.
Proof.
  cbv zeta.
  destruct (non_string_provider_fails JSON.parse "key" (MkProvider "FlixHQ") [] echo2 prompt
              info_two_providers cold eq_refl) as (_ & H).
  - intros p. discriminate.
  - apply H; [reflexivity|reflexivity|left; reflexivity].
Defined.

(** ** The search route *)

Lemma number_text_not_quoted (n : Z) (s r1 r2 : string) :
  JSON.quote s +:+ r1 <> JSON.number_to_string n +:+ r2.
Proof.
  unfold JSON.number_to_string, JSON.quote, JSON.dquote.
  destruct (Z.to_int n) as [u|u]; [destruct u|]; intros H; vm_compute in H; discriminate.
Qed.

(** X15.  The search route takes a missing [page] as the number 1, so a
    request without [page] runs exactly as one with the number 1.  A
    [page] given as text is something else: whatever the query and the
    digits, its cache key differs from every key built with a numeric
    page, so [/q] and [/q?page=1] never share an entry when the server
    hands query parameters over as strings. *)
Theorem search_route_page
  (JSON_parse : string -> option jsval) (tmdbApi : string) (PROVIDERS_MOVIES : list Provider)
  (search : TMDB -> jsval -> jsval -> Loader) (env : Env) (request : Request) :
  let route := search_route JSON_parse tmdbApi PROVIDERS_MOVIES search env in
  (prop (query request) "page" = JUndefined ->
   route request = route (with_query "page" (JNum 1) request)) /\
  (forall (q : jsval) (p : string) (n : Z),
     getCacheKey "search" (Obj.literal [("query", q); ("page", JStr p)]) <>
     getCacheKey "search" (Obj.literal [("query", q); ("page", JNum n)])).
Proof.
  cbv zeta. split.
  - intros H. unfold search_route, with_query. cbn [query params].
    rewrite prop_set_same, H. reflexivity.
  - intros q p n. unfold getCacheKey. cbn [Obj.literal fold_left fst snd Obj.set].
    cbn [String.eqb Ascii.eqb Bool.eqb].
    cbn [JSON.stringify interpolate List.map fst snd].
    unfold JSON.members. rewrite !own_properties_named
      by (repeat (apply Forall_cons; split; [reflexivity|]); apply Forall_nil_2).
    intros H. do 4 apply append_cancel_l in H.
    destruct (JSON.stringify q) as [t|];
      cbn [omap list_omap JSON.member fst snd JSON.join] in H.
    + rewrite !append_assoc_s in H. repeat apply append_cancel_l in H.
      exact (number_text_not_quoted n p _ _ H).
    + rewrite !append_assoc_s in H. repeat apply append_cancel_l in H.
      exact (number_text_not_quoted n p _ _ H).
Qed.

Lemma search_route_page_witness :
  search_route JSON.parse "key" [] echo2 prompt search_naruto =
  search_route JSON.parse "key" [] echo2 prompt (with_query "page" (JNum 1) search_naruto).
Proof.
  apply (proj1 (search_route_page JSON.parse "key" [] echo2 prompt search_naruto)).
  reflexivity.
Defined.

(** ** Absent parameters *)

Section Omitted.
Context {A : Type}.

Lemma indexed_skip (l1 l2 : list (string * A)) (k : string) (v : A) :
  JSON.array_index k = None ->
  JSON.indexed (l1 ++ (k, v) :: l2)%list = JSON.indexed (l1 ++ l2)%list.
Proof.
  intros Hk. induction l1 as [|[k' v'] l1 IH]; cbn.
  - rewrite Hk. reflexivity.
  - rewrite IH. reflexivity.
Qed.

Lemma named_app (l1 l2 : list (string * A)) :
  JSON.named (l1 ++ l2)%list = (JSON.named l1 ++ JSON.named l2)%list.
Proof. unfold JSON.named. apply List.filter_app. Qed.

End Omitted.

(** X16.  A parameter whose value is [undefined] leaves no trace in the
    cache key, wherever it stands in the bag: the key is that of the bag
    without it.  So the info and watch routes key a request without
    [provider] by its other parameters alone. *)
Theorem getCacheKey_ignores_undefined (route : string) (p1 p2 : Obj.t) (k : string) :
  JSON.array_index k = None ->
  getCacheKey route (p1 ++ (k, JUndefined) :: p2)%list = getCacheKey route (p1 ++ p2)%list.
Proof.
  intros Hk. unfold getCacheKey. cbn [JSON.stringify interpolate].
  do 4 f_equal. f_equal.
  unfold JSON.members, JSON.own_properties.
  rewrite !List.map_app. cbn [List.map fst snd JSON.stringify].
  rewrite (indexed_skip _ _ k None Hk), !named_app.
  rewrite !omap_app. f_equal. f_equal.
  unfold JSON.named at 2. cbn [List.filter fst]. rewrite Hk.
  fold (JSON.named (List.map (fun kv : string * jsval => (fst kv, JSON.stringify (snd kv))) p2)).
  reflexivity.
Qed.

Lemma getCacheKey_ignores_undefined_witness :
  getCacheKey "info"
    (Obj.literal [("id", JStr "550"); ("type", JStr "movie"); ("provider", JUndefined)]) =
  getCacheKey "info" (Obj.literal [("id", JStr "550"); ("type", JStr "movie")]).
Proof.
  apply (getCacheKey_ignores_undefined "info" [("id", JStr "550"); ("type", JStr "movie")] []
           "provider").
  reflexivity.
Defined.

(** ** The dramacool routes *)

(** X17.  The listing routes (recent movies, recent shows, popular) ask
    upstream exactly once, for the page given or, when [page] is missing
    or otherwise falsy, for the number 1.  They always answer: 200 with
    the upstream result, or 500 with a fixed message when upstream
    fails.  They never touch either cache tier or the reply's headers,
    and a request with a falsy [page] runs exactly as one with the
    number 1. *)
Theorem listing_route_answers (fetch : jsval -> Loader) (env : Env) (request : Request)
  (s : State) :
  let page := prop (query request) "page" in
  let asked := if truthy page then page else JNum 1 in
  let r := listing_route fetch env request s in
  fst r = Ok tt /\
  fetched (snd r) = S (fetched s) /\
  memoryCache (snd r) = memoryCache s /\
  redis (snd r) = redis s /\
  headers (reply (snd r)) = headers (reply s) /\
  (forall results, fetch asked (fetched s) = Ok results ->
     statusCode (reply (snd r)) = 200 /\ sent (reply (snd r)) = Some results) /\
  (forall e, fetch asked (fetched s) = Throw e ->
     statusCode (reply (snd r)) = 500 /\ sent (reply (snd r)) = Some something_went_wrong) /\
  (truthy page = false ->
     listing_route fetch env request =
     listing_route fetch env (with_query "page" (JNum 1) request)).
Proof.
  cbv zeta.
  unfold listing_route, try_catch, bind, await_fetch, reply_status, reply_send.
  cbn [fst snd].
  destruct (fetch _ (fetched s)) as [results|e] eqn:E; cbn.
  - repeat (split; [reflexivity|]).
    split; [intros results' [= <-]; split; reflexivity|].
    split; [intros e [=]|].
    intros H. unfold with_query. cbn [query]. rewrite prop_set_same, H. reflexivity.
  - repeat (split; [reflexivity|]).
    split; [intros results' [=]|].
    split; [intros e' _; split; reflexivity|].
    intros H. unfold with_query. cbn [query]. rewrite prop_set_same, H. reflexivity.
Qed.

Lemma listing_route_answers_witness :
  let r := popular_route echo_page prompt popular_page0 cold_shared in
  statusCode (reply (snd r)) = 200 /\
  sent (reply (snd r)) = Some (JNum 1) /\
  popular_route echo_page prompt popular_page0 =
  popular_route echo_page prompt (with_query "page" (JNum 1) popular_page0).
Proof.
  cbv zeta.
  destruct (listing_route_answers echo_page prompt popular_page0 cold_shared)
    as (_ & _ & _ & _ & _ & Hok & _ & Hdef).
  destruct (Hok (JNum 1) eq_refl) as (A & B).
  exact (conj A (conj B (Hdef eq_refl))).
Defined.

(** X18.  The dramacool search route decodes its path parameter first.
    When [decodeURIComponent] refuses it, the answer is 500 and upstream
    is never asked; otherwise upstream is asked once, with the decoded
    text and with [page] exactly as given (there is no default here),
    and the answer is 200 with the result or 500 when upstream fails. *)
Theorem dramacool_search_route_decodes
  (dramacool_search : string -> jsval -> Loader) (decodeURIComponent : jsval -> option string)
  (env : Env) (request : Request) (s : State) :
  let r := dramacool_search_route dramacool_search decodeURIComponent env request s in
  let raw := prop (params request) "query" in
  fst r = Ok tt /\
  (decodeURIComponent raw = None ->
     statusCode (reply (snd r)) = 500 /\
     sent (reply (snd r)) = Some something_went_wrong_contact /\
     fetched (snd r) = fetched s) /\
  (forall text, decodeURIComponent raw = Some text ->
     fetched (snd r) = S (fetched s) /\
     match dramacool_search text (prop (query request) "page") (fetched s) with
     | Ok res => statusCode (reply (snd r)) = 200 /\ sent (reply (snd r)) = Some res
     | Throw _ =>
         statusCode (reply (snd r)) = 500 /\
         sent (reply (snd r)) = Some something_went_wrong_contact
     end).
Proof.
  cbv zeta.
  unfold dramacool_search_route, try_catch, bind, throw, await_fetch, reply_status, reply_send.
  destruct (decodeURIComponent (prop (params request) "query")) as [text|]; cbn [fst snd].
  - destruct (dramacool_search text _ (fetched s)) as [res|e] eqn:E; cbn.
    + split; [reflexivity|]. split; [discriminate|].
      intros text' [= <-]. rewrite E. repeat split; reflexivity.
    + split; [reflexivity|]. split; [discriminate|].
      intros text' [= <-]. rewrite E. repeat split; reflexivity.
  - cbn. split; [reflexivity|]. split; [intros _; repeat split; reflexivity|].
    intros text [=].
Qed.

Lemma dramacool_search_route_decodes_witness :
  let r := dramacool_search_route (fun text page _ => Ok (JStr text)) refuse_all prompt
             search_malformed cold in
  statusCode (reply (snd r)) = 500 /\
  sent (reply (snd r)) = Some something_went_wrong_contact /\
  fetched (snd r) = 0%nat.
Proof.
  cbv zeta.
  destruct (dramacool_search_route_decodes (fun text page _ => Ok (JStr text)) refuse_all
              prompt search_malformed cold) as (_ & H & _).
  exact (H eq_refl).
Defined.

(** X19.  The server switch of the watch route accepts exactly four
    names, without regard to letter case.  For a string [s]: a server is
    selected exactly when the lower-cased [s] is that server's label; no
    server is selected exactly when [s] is empty; every other string is
    rejected as invalid; and no string makes the switch throw. *)
Theorem select_server_accepts_four (s : string) :
  (forall server,
     select_server (JStr s) = Ok (Selected (Some server)) <->
     toLowerCase s = server_label server) /\
  (select_server (JStr s) = Ok (Selected None) <-> s = EmptyString) /\
  (select_server (JStr s) = Ok Invalid <->
   s <> EmptyString /\ forall server, toLowerCase s <> server_label server) /\
  (forall e, select_server (JStr s) <> Throw e).
Proof.
  unfold select_server. cbn [truthy].
  destruct s as [|c s]; [cbn|].
  { split; [intros []; split; discriminate|].
    split; [tauto|]. split; [|discriminate].
    split; [discriminate|intros [H _]; congruence]. }
  change (nonempty (String c s)) with true. cbv iota.
  set (l := toLowerCase (String c s)).
  assert (l <> EmptyString) as Hl by (unfold l; cbn; discriminate).
  destruct (String.eqb_spec l "asianload") as [E1|N1];
    [|destruct (String.eqb_spec l "mixdrop") as [E2|N2];
      [|destruct (String.eqb_spec l "streamtape") as [E3|N3];
        [|destruct (String.eqb_spec l "streamsb") as [E4|N4]]]].
  all: split; [intros []; cbn [server_label]; split; intros H;
               try reflexivity; try assumption; try congruence; try discriminate|].
  all: split; [split; intros H; discriminate|].
  all: split; [|intros e; discriminate].
  all: split; [intros H; try discriminate|intros [_ H]].
  all: try (exfalso; first [ exact (H AsianLoad E1) | exact (H MixDrop E2)
                          | exact (H StreamTape E3) | exact (H StreamSB E4) ]).
  all: try reflexivity.
  split; [discriminate|]. intros []; cbn [server_label]; assumption.
Qed.

Lemma select_server_accepts_four_witness :
  select_server (JStr "MixDrop") = Ok (Selected (Some MixDrop)) /\
  select_server (JStr "vidcloud") = Ok Invalid.
Proof.
  destruct (select_server_accepts_four "MixDrop") as (A & _).
  destruct (select_server_accepts_four "vidcloud") as (_ & _ & B & _).
  split.
  - apply (proj2 (A MixDrop)). reflexivity.
  - apply (proj2 B). split; [discriminate|]. intros []; discriminate.
Defined.
